(** * pingadd.cpp: latency probe through the system [ping] utility

    The program takes one host on the command line, runs
    [ping -c 1 <host> 2>&1] through [popen], collects what the command
    writes, and scans that text with two regular expressions for a
    round-trip time.  This development embeds the program ([main], the
    [fgets] read loop and the two [std::regex] searches) and proves the
    properties of its exit code, its output line and the command it spawns. *)

From Stdlib Require Import Lists.List.
From Stdlib Require Import ZArith.ZArith Arith.PeanoNat Bool.Bool.
From Stdlib Require Import Strings.Ascii Strings.String.
From Stdlib Require Import micromega.Lia.
Import ListNotations.

Local Open Scope string_scope.

(** ** Strings *)

Module Str.

(** The newline character, written \n in the C++ literals. *)
Definition nl : string := String "010"%char EmptyString.

End Str.

(** ** Regular expressions, ECMAScript flavour

    [std::regex] defaults to the ECMAScript grammar: a backtracking
    matcher, greedy quantifiers, leftmost match for [regex_search].  The
    syntax below covers what the two patterns of the program use.  Each
    of them has one group, outside every quantifier, so the matcher keeps
    one capture and never has to reset it. *)

Module Regex.

Inductive regex : Type :=
| Eps                          (* empty pattern *)
| Chr (c : ascii)              (* a literal character, also an escaped one *)
| Range (lo hi : ascii)        (* bracket range [lo-hi] *)
| Space                        (* \s *)
| Cat (r1 r2 : regex)          (* r1 r2 *)
| Star (r : regex)             (* r*  greedy *)
| Plus (r : regex)             (* r+  greedy *)
| Opt (r : regex)              (* r?  greedy *)
| Group (r : regex).           (* ( r ), the capture group 1 *)

(** [std::isspace] in the "C" locale: space, \t, \n, \v, \f, \r. *)
Definition isspace (a : ascii) : bool :=
  let n := nat_of_ascii a in
  ((n =? 32) || ((9 <=? n) && (n <=? 13)))%nat.

Definition in_range (lo hi a : ascii) : bool :=
  ((nat_of_ascii lo <=? nat_of_ascii a) && (nat_of_ascii a <=? nat_of_ascii hi))%nat.

(** The text between two positions of the subject, each position given by
    the input that remains after it. *)
Definition consumed (s s' : string) : string :=
  substring 0 (length s - length s') s.

Section Matcher.

Context {R : Type}.

(** A continuation receives the remaining input and the capture. *)
Definition cont : Type := string -> option string -> option R.

Definition one (p : ascii -> bool) (s : string) (cap : option string) (k : cont)
  : option R :=
  match s with
  | String a s' => if p a then k s' cap else None
  | EmptyString => None
  end.

(** Greedy repetition with minimum zero: one more iteration is tried first,
    the continuation second; an iteration that consumes nothing is rejected
    (ECMA-262 RepeatMatcher).  [n] bounds the iterations by the input
    length. *)
Fixpoint repeat (step : string -> option string -> cont -> option R)
    (k : cont) (n : nat) (s : string) (cap : option string) : option R :=
  match n with
  | O => k s cap
  | S n' =>
      match step s cap (fun s' cap' =>
                          if (length s' <? length s)%nat
                          then repeat step k n' s' cap' else None) with
      | Some x => Some x
      | None => k s cap
      end
  end.

Fixpoint run (r : regex) (s : string) (cap : option string) (k : cont)
  : option R :=
  match r with
  | Eps => k s cap
  | Chr c => one (Ascii.eqb c) s cap k
  | Range lo hi => one (in_range lo hi) s cap k
  | Space => one isspace s cap k
  | Cat r1 r2 => run r1 s cap (fun s' cap' => run r2 s' cap' k)
  | Star r' => repeat (run r') k (length s) s cap
  | Plus r' =>
      run r' s cap (fun s' cap' => repeat (run r') k (length s') s' cap')
  | Opt r' =>
      match run r' s cap (fun s' cap' =>
                            if (length s' <? length s)%nat
                            then k s' cap' else None) with
      | Some x => Some x
      | None => k s cap
      end
  | Group r' => run r' s cap (fun s' _ => k s' (Some (consumed s s')))
  end.

End Matcher.

(** [std::smatch] after a successful search: [m[0]] and [m[1]], with the
    text before and after the match. *)
Record smatch : Type := {
  prefix : string;
  whole : string;
  group1 : option string;
  suffix : string
}.

(** Streaming a [sub_match] prints its text, nothing when it did not
    participate. *)
Definition str (g : option string) : string :=
  match g with Some w => w | None => EmptyString end.

Definition match_here (r : regex) (s : string) : option (string * option string) :=
  run r s None (fun s' cap => Some (s', cap)).

(** [std::regex_search]: the first position, from the left, where the
    pattern matches. *)
Fixpoint search_from (r : regex) (pre s : string) : option smatch :=
  match match_here r s with
  | Some (s', cap) =>
      Some {| prefix := pre; whole := consumed s s'; group1 := cap; suffix := s' |}
  | None =>
      match s with
      | EmptyString => None
      | String a s' => search_from r (pre ++ String a EmptyString) s'
      end
  end.

Definition regex_search (s : string) (r : regex) : option smatch :=
  search_from r EmptyString s.

(** Pattern syntax: the literal characters of [w], then [r]. *)
Fixpoint lit (w : string) (r : regex) : regex :=
  match w with
  | EmptyString => r
  | String a w' => Cat (Chr a) (lit w' r)
  end.

Definition digit : regex := Range "0" "9".

(** A reader for the part of the ECMAScript pattern grammar that the program
    uses: literal characters, escapes ([\s], [\d], identity escapes), one
    bracket range, the quantifiers [*], [+], [?] and parentheses.  A pattern
    outside this part is refused, which [std::regex] reports by throwing
    [regex_error]. *)
Definition cat (r1 r2 : regex) : regex :=
  match r2 with
  | Eps => r1
  | _ => Cat r1 r2
  end.

Definition quantified (a : regex) (s : string) : regex * string :=
  match s with
  | String "*" s' => (Star a, s')
  | String "+" s' => (Plus a, s')
  | String "?" s' => (Opt a, s')
  | _ => (a, s)
  end.

Definition escape (c : ascii) : regex :=
  if Ascii.eqb c "s" then Space
  else if Ascii.eqb c "d" then digit
  else Chr c.

Fixpoint parse_seq (fuel : nat) (s : string) : option (regex * string) :=
  match fuel with
  | O => None
  | S fuel' =>
      let term (a : regex) (s1 : string) :=
        let (t, s2) := quantified a s1 in
        match parse_seq fuel' s2 with
        | Some (r, s3) => Some (cat t r, s3)
        | None => None
        end in
      match s with
      | EmptyString => Some (Eps, EmptyString)
      | String ")" _ => Some (Eps, s)
      | String "(" s' =>
          match parse_seq fuel' s' with
          | Some (r, String ")" s1) => term (Group r) s1
          | _ => None
          end
      | String "\" (String c s1) => term (escape c) s1
      | String "[" (String lo (String "-" (String hi (String "]" s1)))) =>
          term (Range lo hi) s1
      | String c s1 =>
          if existsb (Ascii.eqb c) ["*"; "+"; "?"; "["; "]"; "\"; "|"; "{"; "}";
                                    "^"; "$"; "."]%char
          then None else term (Chr c) s1
      end
  end.

Definition parse (src : string) : option regex :=
  match parse_seq (S (length src)) src with
  | Some (r, EmptyString) => Some r
  | _ => None
  end.

(** The pattern language read declaratively: [matches r w c c'] when [r]
    can match exactly the text [w], turning the capture [c] into [c'].  The
    matcher [run] is correct and complete for it (RegexFacts below); it adds
    the order in which the alternatives are tried. *)
Inductive matches : regex -> string -> option string -> option string -> Prop :=
| M_Eps c : matches Eps EmptyString c c
| M_Chr a c : matches (Chr a) (String a EmptyString) c c
| M_Range lo hi a c :
    in_range lo hi a = true -> matches (Range lo hi) (String a EmptyString) c c
| M_Space a c :
    isspace a = true -> matches Space (String a EmptyString) c c
| M_Cat r1 r2 w1 w2 c0 c1 c2 :
    matches r1 w1 c0 c1 -> matches r2 w2 c1 c2 ->
    matches (Cat r1 r2) (w1 ++ w2) c0 c2
| M_Star_done r c : matches (Star r) EmptyString c c
| M_Star_more r w1 w2 c0 c1 c2 :
    w1 <> EmptyString ->
    matches r w1 c0 c1 -> matches (Star r) w2 c1 c2 ->
    matches (Star r) (w1 ++ w2) c0 c2
| M_Plus r w1 w2 c0 c1 c2 :
    matches r w1 c0 c1 -> matches (Star r) w2 c1 c2 ->
    matches (Plus r) (w1 ++ w2) c0 c2
| M_Opt_none r c : matches (Opt r) EmptyString c c
| M_Opt_some r w c0 c1 :
    w <> EmptyString -> matches r w c0 c1 -> matches (Opt r) w c0 c1
| M_Group r w c0 c1 :
    matches r w c0 c1 -> matches (Group r) w c0 (Some w).

Section Correctness.

Context {R : Type}.

(** A step of the matcher is sound for a pattern when every answer it
    gives comes from the continuation, after a text the pattern matches. *)
Definition sound_for (r : regex)
    (step : string -> option string -> @cont R -> option R) : Prop :=
  forall s c k x, step s c k = Some x ->
    exists w s' c', s = w ++ s' /\ matches r w c c' /\ k s' c' = Some x.

(** A step is complete for a pattern when it answers as soon as the
    pattern matches a front part of the input and the continuation accepts
    what follows. *)
Definition complete_for (r : regex)
    (step : string -> option string -> @cont R -> option R) : Prop :=
  forall w c c', matches r w c c' ->
  forall s' k, k s' c' <> None -> step (w ++ s') c k <> None.

End Correctness.

(** Texts of decimal digits, and the numerals [[0-9]+\.?[0-9]*]. *)
Definition is_digit (a : ascii) : bool := in_range "0" "9" a.

Fixpoint all_digits (w : string) : bool :=
  match w with
  | EmptyString => true
  | String a w' => is_digit a && all_digits w'
  end.

Definition digits1 (w : string) : bool :=
  match w with
  | EmptyString => false
  | _ => all_digits w
  end.

Fixpoint drop_digits (w : string) : string :=
  match w with
  | String a w' => if is_digit a then drop_digits w' else w
  | EmptyString => EmptyString
  end.

Definition numeral (w : string) : bool :=
  match w with
  | EmptyString => false
  | String a _ =>
      is_digit a &&
      match drop_digits w with
      | EmptyString => true
      | String b d => Ascii.eqb b "." && all_digits d
      end
  end.

(** The characters a numeral is made of. *)
Definition num_char (a : ascii) : bool := is_digit a || Ascii.eqb a ".".

Fixpoint num_chars (w : string) : bool :=
  match w with
  | EmptyString => true
  | String a w' => num_char a && num_chars w'
  end.

(** A text that can follow the number: it starts with a white-space
    character or with [m], never with a character of a numeral. *)
Definition follows_number (t : string) : Prop :=
  match t with
  | String a _ => num_char a = false
  | EmptyString => False
  end.

(** At most one white-space character. *)
Definition space01 (w : string) : bool :=
  match w with
  | EmptyString => true
  | String a EmptyString => isspace a
  | _ => false
  end.

Declare Scope regex_scope.
Delimit Scope regex_scope with re.
Bind Scope regex_scope with regex.
Infix "@@" := Cat (at level 60, right associativity) : regex_scope.

End Regex.

(** ** The C stream read loop *)

Module Stdio.

Definition NUL : ascii := "000"%char.
Definition LF : ascii := "010"%char.

(** [fgets] stores at most [room] characters and stops after a newline. *)
Fixpoint fgets_line (room : nat) (stream : string) : string * string :=
  match room, stream with
  | S room', String a stream' =>
      if Ascii.eqb a LF then (String a EmptyString, stream')
      else let (line, rest) := fgets_line room' stream' in (String a line, rest)
  | _, _ => (EmptyString, stream)
  end.

(** [fgets(buf, size, stream)]: the null pointer at end of file, else the
    characters stored in [buf] (before the terminating NUL) and the rest of
    the stream. *)
Definition fgets (size : nat) (stream : string) : option (string * string) :=
  match stream with
  | EmptyString => None
  | _ => Some (fgets_line (size - 1) stream)
  end.

(** What a [char*] denotes as a C string: the characters before the first
    NUL. *)
Fixpoint c_str (buf : string) : string :=
  match buf with
  | EmptyString => EmptyString
  | String a buf' => if Ascii.eqb a NUL then EmptyString else String a (c_str buf')
  end.

(** [while (fgets(buffer.data(), buffer.size(), pipe.get()) != nullptr)
       result += buffer.data();]
    with a buffer of 128 characters.  Every round takes at least one
    character from the stream, so [fuel] rounds suffice for a stream of
    [fuel] characters. *)
Fixpoint read_loop (fuel : nat) (pipe result : string) : string :=
  match fuel with
  | O => result
  | S fuel' =>
      match fgets 128 pipe with
      | None => result
      | Some (buffer, pipe') => read_loop fuel' pipe' (result ++ c_str buffer)
      end
  end.

Definition read_all (pipe : string) : string :=
  read_loop (length pipe) pipe EmptyString.

(** Texts without a NUL character, as a terminal program writes them. *)
Fixpoint no_nul (s : string) : bool :=
  match s with
  | EmptyString => true
  | String a s' => negb (Ascii.eqb a NUL) && no_nul s'
  end.

End Stdio.

(** ** The program *)

Module Ping.

Import Regex Stdio.
Local Open Scope regex_scope.

(** What the run has produced so far: the text on standard output, the
    text on standard error (written by the program through [std::cerr], or
    by the processes [popen] starts, which share the descriptor), and the
    commands handed to [popen], oldest first. *)
Record world : Type := {
  cout : string;
  cerr : string;
  spawned : list string
}.

Definition start : world :=
  {| cout := EmptyString; cerr := EmptyString; spawned := [] |}.

Definition IO (A : Type) : Type := world -> A * world.

Definition ret {A : Type} (a : A) : IO A := fun w => (a, w).

Definition bind {A B : Type} (c : IO A) (f : A -> IO B) : IO B :=
  fun w => let (a, w') := c w in f a w'.

Notation "x <- c ;; k" := (bind c (fun x => k))
  (at level 61, c at next level, right associativity).
Notation "c ;; k" := (bind c (fun _ => k))
  (at level 61, right associativity).

Definition put_cout (s : string) : IO unit :=
  fun w => (tt, {| cout := cout w ++ s; cerr := cerr w; spawned := spawned w |}).

Definition put_cerr (s : string) : IO unit :=
  fun w => (tt, {| cout := cout w; cerr := cerr w ++ s; spawned := spawned w |}).

(** The pattern of [r_time], as the source spells it after C++ unescaping. *)
Definition r_time_src : string := "time=([0-9]+\.?[0-9]*)\s?ms".

Definition r_time : regex :=
  lit "time=" (Group (Plus digit @@ Opt (Chr ".") @@ Star digit)
                @@ Opt Space @@ Chr "m" @@ Chr "s").

(** The pattern of [r_time_win]. *)
Definition r_time_win_src : string := "Average = ([0-9]+)ms".

Definition r_time_win : regex :=
  lit "Average = " (Group (Plus digit) @@ Chr "m" @@ Chr "s").

(** "ping -c 1 " + host + " 2>&1" *)
Definition command (host : string) : string :=
  "ping -c 1 " ++ host ++ " 2>&1".

(** The operating system behind [popen(cmd, "r")], which runs
    [/bin/sh -c cmd] with its standard output on a pipe.
    - [piped os cmd]: no stream when the pipe or the shell process cannot be
      created, else everything that is written to the pipe until its last
      writer closes it;
    - [leaked os cmd]: what the shell and the processes it starts write to
      standard error, which they inherit from the program (the [2>&1] at the
      end of the command line redirects the last command of it, not the
      shell's own messages nor the commands before a [;]);
    - [ends os cmd]: whether the shell process ever ends. *)
Record system : Type := {
  piped :> string -> option string;
  leaked : string -> string;
  ends : string -> bool
}.

Section Program.

Variable os : system.

Definition popen (cmd : string) : IO (option string) :=
  fun w => (os cmd,
            {| cout := cout w;
               cerr := match os cmd with
                       | Some _ => cerr w ++ leaked os cmd
                       | None => cerr w
                       end;
               spawned := spawned w ++ [cmd] |}).

(** [pclose(stream)] waits for the shell behind the stream: it returns only
    if that process ends. *)
Definition pclose_returns (cmd : string) : bool :=
  match os cmd with
  | Some _ => ends os cmd
  | None => true
  end.

(** [argv] holds [argc] strings; [argv[0]] is the program name.  The
    entries are C strings, which hold no NUL, so [std::string host = argv[1]]
    and [cmd.c_str()] keep every character of them. *)
Definition main (argv : list string) : IO Z :=
  let argc := List.length argv in
  if negb (argc =? 2)%nat then
    put_cerr ("Usage: " ++ nth 0 argv EmptyString ++ " <host-or-ip>" ++ Str.nl) ;;
    ret 1%Z
  else
    let host := nth 1 argv EmptyString in
    let cmd := command host in
    pipe <- popen cmd ;;
    match pipe with
    | None =>
        put_cerr ("Failed to run ping command" ++ Str.nl) ;;
        ret 1%Z
    | Some stream =>
        let result := read_all stream in
        match regex_search result r_time with
        | Some m =>
            put_cout ("Reply from " ++ host ++ ": time=" ++ str (group1 m)
                        ++ " ms" ++ Str.nl) ;;
            ret 0%Z
        | None =>
            match regex_search result r_time_win with
            | Some m =>
                put_cout ("Reply from " ++ host ++ ": time=" ++ str (group1 m)
                            ++ " ms (avg)" ++ Str.nl) ;;
                ret 0%Z
            | None =>
                put_cout ("No reply / unable to parse time. Raw output:" ++ Str.nl) ;;
                put_cout (result ++ Str.nl) ;;
                ret 2%Z
            end
        end
    end.

(** One run of the program from a fresh process: the value [main] returns
    and what the run leaves on the streams. *)
Definition exit_code (argv : list string) : Z := fst (main argv start).
Definition stdout (argv : list string) : string := cout (snd (main argv start)).
Definition stderr (argv : list string) : string := cerr (snd (main argv start)).
Definition commands (argv : list string) : list string :=
  spawned (snd (main argv start)).

(** How the process ends.  [pipe] is a [std::unique_ptr] with [pclose] as
    its deleter: when [main] returns with a stream open, the deleter runs
    before the process exits, and [pclose] waits for the shell.  The process
    exits with the value [main] returned once that wait is over, and never
    when the shell never ends.  A null [pipe] has no deleter call. *)
Definition process_exit (argv : list string) : option Z :=
  let (code, w) := main argv start in
  if forallb pclose_returns (spawned w) then Some code else None.

End Program.

(** What the two patterns look for in the text of [ping]: a numeral after
    [time=], followed by [ms] with at most one white-space character
    between, or digits between [Average = ] and [ms]. *)
Definition time_report (result n : string) : Prop :=
  exists u ws v,
    result = u ++ "time=" ++ n ++ ws ++ "ms" ++ v /\
    numeral n = true /\ space01 ws = true.

Definition average_report (result n : string) : Prop :=
  exists u v,
    result = u ++ "Average = " ++ n ++ "ms" ++ v /\ digits1 n = true.

Definition reports_time (result : string) : Prop :=
  (exists n, time_report result n) \/ (exists n, average_report result n).

(** The report of each kind that begins first in the text. *)
Definition first_time_report (result n : string) : Prop :=
  exists u ws v,
    result = u ++ "time=" ++ n ++ ws ++ "ms" ++ v /\
    numeral n = true /\ space01 ws = true /\
    forall u' n' ws' v',
      result = u' ++ "time=" ++ n' ++ ws' ++ "ms" ++ v' ->
      numeral n' = true -> space01 ws' = true -> length u <= length u'.

Definition first_average_report (result n : string) : Prop :=
  exists u v,
    result = u ++ "Average = " ++ n ++ "ms" ++ v /\ digits1 n = true /\
    forall u' n' v',
      result = u' ++ "Average = " ++ n' ++ "ms" ++ v' ->
      digits1 n' = true -> length u <= length u'.

(** Texts the [ping] utilities print, used as test inputs. *)
Module Samples.

(** iputils ping, one reply. *)
Definition linux_reply : string :=
  "PING example.org (93.184.216.34) 56(84) bytes of data." ++ Str.nl ++
  "64 bytes from 93.184.216.34: icmp_seq=1 ttl=57 time=12.3 ms" ++ Str.nl ++
  Str.nl ++
  "--- example.org ping statistics ---" ++ Str.nl ++
  "1 packets transmitted, 1 received, 0% packet loss, time 0ms" ++ Str.nl ++
  "rtt min/avg/max/mdev = 12.300/12.300/12.300/0.000 ms" ++ Str.nl.

(** iputils ping, no reply. *)
Definition linux_no_reply : string :=
  "PING 10.255.255.1 (10.255.255.1) 56(84) bytes of data." ++ Str.nl ++
  Str.nl ++
  "--- 10.255.255.1 ping statistics ---" ++ Str.nl ++
  "1 packets transmitted, 0 received, 100% packet loss, time 0ms" ++ Str.nl.

(** iputils ping, a name that does not resolve. *)
Definition unknown_host : string :=
  "ping: nosuchhost.invalid: Name or service not known" ++ Str.nl.

(** Windows ping, a reply in under a millisecond. *)
Definition windows_fast_reply : string :=
  "Pinging 127.0.0.1 with 32 bytes of data:" ++ Str.nl ++
  "Reply from 127.0.0.1: bytes=32 time<1ms TTL=128" ++ Str.nl ++
  Str.nl ++
  "Ping statistics for 127.0.0.1:" ++ Str.nl ++
  "    Packets: Sent = 1, Received = 1, Lost = 0 (0% loss)," ++ Str.nl ++
  "Approximate round trip times in milli-seconds:" ++ Str.nl ++
  "    Minimum = 0ms, Maximum = 0ms, Average = 0ms" ++ Str.nl.

(** A text with both kinds of report. *)
Definition both_reports : string :=
  "Reply from 10.0.0.7: bytes=32 time=5ms TTL=64" ++ Str.nl ++
  "    Minimum = 5ms, Maximum = 5ms, Average = 7ms" ++ Str.nl.

(** A system whose shell writes only to the pipe, and ends. *)
Definition quiet (pipe : string -> option string) : system :=
  {| piped := pipe; leaked := fun _ => EmptyString; ends := fun _ => true |}.

(** The shell given a command line with an unterminated quote, as for the
    host [a'b]: nothing on the pipe, the shell's complaint on the inherited
    standard error. *)
Definition unterminated_quote : system :=
  {| piped := fun _ => Some EmptyString;
     leaked := fun _ => "sh: 1: Syntax error: Unterminated quoted string" ++ Str.nl;
     ends := fun _ => true |}.

(** The shell given the host
    [localhost >/dev/null; exec >/dev/null; sleep infinity]: the pipe is
    closed with nothing written to it, and the shell waits for a command that
    never ends. *)
Definition endless_sleep : system :=
  {| piped := fun _ => Some EmptyString;
     leaked := fun _ => EmptyString;
     ends := fun _ => false |}.

End Samples.

End Ping.

(** * Properties *)

(** ** Strings *)

Module StrFacts.

Lemma append_nil_r (s : string) : s ++ EmptyString = s.
Proof. induction s as [|a s IH]; simpl; [reflexivity | now rewrite IH]. Qed.

Lemma append_assoc (a b c : string) : (a ++ b) ++ c = a ++ (b ++ c).
Proof. induction a as [|x a IH]; simpl; [reflexivity | now rewrite IH]. Qed.

Lemma length_append (a b : string) : length (a ++ b) = length a + length b.
Proof. induction a as [|x a IH]; simpl; [reflexivity | now rewrite IH]. Qed.

Lemma substring_all (w : string) : substring 0 (length w) w = w.
Proof. induction w as [|x w IH]; simpl; [reflexivity | now rewrite IH]. Qed.

Lemma substring_prefix (w s : string) : substring 0 (length w) (w ++ s) = w.
Proof.
  induction w as [|x w IH]; simpl.
  - destruct s; reflexivity.
  - now rewrite IH.
Qed.

Lemma append_inv_head (a b c : string) : a ++ b = a ++ c -> b = c.
Proof.
  induction a as [|x a IH]; simpl; intros H; [exact H|].
  injection H as H. now apply IH.
Qed.

Lemma append_length_inv (a b c d : string) :
  a ++ b = c ++ d -> length a = length c -> a = c /\ b = d.
Proof.
  revert c. induction a as [|x a IH]; intros [|y c]; simpl; intros H L;
    try discriminate.
  - now split.
  - injection H as -> H. injection L as L.
    destruct (IH _ H L) as [-> ->]. now split.
Qed.

End StrFacts.

(** ** The matcher against the declarative reading *)

Module RegexFacts.

Import Regex StrFacts.

Lemma consumed_append (w s : string) : consumed (w ++ s) s = w.
Proof.
  unfold consumed. rewrite length_append.
  replace (length w + length s - length s) with (length w) by lia.
  apply substring_prefix.
Qed.

Lemma shorter_nonempty (w s : string) :
  (length s <? length (w ++ s))%nat = true -> w <> EmptyString.
Proof.
  intros H ->. simpl in H. apply Nat.ltb_lt in H. lia.
Qed.

Lemma nonempty_shorter (w s : string) :
  w <> EmptyString -> (length s <? length (w ++ s))%nat = true.
Proof.
  intros H. apply Nat.ltb_lt. rewrite length_append.
  destruct w; [congruence | simpl; lia].
Qed.

Section Soundness.

Context {R : Type}.

Lemma one_sound (p : ascii -> bool) (r : regex) :
  (forall a c, p a = true -> matches r (String a EmptyString) c c) ->
  sound_for (R := R) r (one p).
Proof.
  intros Hp s c k x H. destruct s as [|a s]; simpl in H; [discriminate|].
  destruct (p a) eqn:E; [|discriminate].
  exists (String a EmptyString), s, c. auto.
Qed.

Lemma repeat_answer (r : regex) step (k : @cont R) :
  sound_for (R := R) r step ->
  forall n s c x, repeat step k n s c = Some x ->
    exists w s' c', s = w ++ s' /\ matches (Star r) w c c' /\ k s' c' = Some x.
Proof.
  intros Hstep. induction n as [|n IH]; intros s c x H; simpl in H.
  - exists EmptyString, s, c. repeat split; [constructor | exact H].
  - destruct (step s c _) as [y|] eqn:E.
    + injection H as ->.
      apply Hstep in E. destruct E as (w1 & s1 & c1 & -> & Hw1 & Hk).
      destruct (length s1 <? length (w1 ++ s1))%nat eqn:L; [|discriminate].
      apply IH in Hk. destruct Hk as (w2 & s2 & c2 & -> & Hw2 & Hk).
      exists (w1 ++ w2), s2, c2. rewrite append_assoc.
      repeat split; [|exact Hk].
      eapply M_Star_more; eauto using shorter_nonempty.
    + exists EmptyString, s, c. repeat split; [constructor | exact H].
Qed.

Theorem run_sound (r : regex) : sound_for (R := R) r (run r).
Proof.
  induction r as [| a | lo hi | | r1 IH1 r2 IH2 | r IH | r IH | r IH | r IH];
    simpl.
  - intros s c k x H. exists EmptyString, s, c. repeat split; [constructor | exact H].
  - apply one_sound. intros a' c E. apply Ascii.eqb_eq in E. subst. constructor.
  - apply one_sound. intros a c E. now constructor.
  - apply one_sound. intros a c E. now constructor.
  - intros s c k x H.
    apply IH1 in H. destruct H as (w1 & s1 & c1 & -> & Hw1 & H).
    apply IH2 in H. destruct H as (w2 & s2 & c2 & -> & Hw2 & H).
    exists (w1 ++ w2), s2, c2. rewrite append_assoc.
    repeat split; [|exact H]. econstructor; eauto.
  - intros s c k x H. eapply repeat_answer; eauto.
  - intros s c k x H.
    apply IH in H. destruct H as (w1 & s1 & c1 & -> & Hw1 & H).
    eapply repeat_answer in H; [|exact IH].
    destruct H as (w2 & s2 & c2 & -> & Hw2 & H).
    exists (w1 ++ w2), s2, c2. rewrite append_assoc.
    repeat split; [|exact H]. econstructor; eauto.
  - intros s c k x H.
    destruct (run r s c _) as [y|] eqn:E.
    + injection H as ->.
      apply IH in E. destruct E as (w1 & s1 & c1 & -> & Hw1 & Hk).
      destruct (length s1 <? length (w1 ++ s1))%nat eqn:L; [|discriminate].
      exists w1, s1, c1. repeat split; [|exact Hk].
      apply M_Opt_some; eauto using shorter_nonempty.
    + exists EmptyString, s, c. repeat split; [constructor | exact H].
  - intros s c k x H.
    apply IH in H. destruct H as (w1 & s1 & c1 & -> & Hw1 & H).
    rewrite consumed_append in H.
    exists w1, s1, (Some w1). repeat split; [|exact H]. econstructor; eauto.
Qed.

End Soundness.

Section Completeness.

Context {R : Type}.

Lemma repeat_complete (r : regex) step (k : @cont R) :
  complete_for (R := R) r step ->
  forall w c c', matches (Star r) w c c' ->
  forall s' n, k s' c' <> None -> length (w ++ s') <= n ->
  repeat step k n (w ++ s') c <> None.
Proof.
  intros Hstep w c c' Hm. remember (Star r) as sr eqn:Esr.
  induction Hm as [ | | | | | r0 c | r0 w1 w2 c0 c1 c2 Hne H1 _ H2 IH2 | | | | ];
    try discriminate; injection Esr as ->; intros s' n Hk Hn.
  - destruct n; [exact Hk|]. simpl.
    destruct (step s' c _); [discriminate | exact Hk].
  - destruct n as [|n].
    + exfalso. rewrite !length_append in Hn. destruct w1; [congruence | simpl in Hn; lia].
    + simpl. rewrite append_assoc.
      destruct (step (w1 ++ w2 ++ s') c0 _) as [y|] eqn:E; [discriminate|].
      exfalso. revert E. apply (Hstep _ _ _ H1).
      rewrite nonempty_shorter by exact Hne.
      apply IH2; [reflexivity | exact Hk |].
      rewrite append_assoc, length_append in Hn.
      destruct w1; [congruence | simpl in Hn; lia].
Qed.

Theorem run_complete (r : regex) : complete_for (R := R) r (run r).
Proof.
  induction r as [| a | lo hi | | r1 IH1 r2 IH2 | r IH | r IH | r IH | r IH];
    intros w c c' Hm s' k Hk; inversion Hm; subst; simpl.
  - exact Hk.
  - rewrite Ascii.eqb_refl. exact Hk.
  - match goal with H : in_range _ _ _ = true |- _ => rewrite H end. exact Hk.
  - match goal with H : isspace _ = true |- _ => rewrite H end. exact Hk.
  - rewrite append_assoc. eapply IH1; eauto.
  - destruct (length s'); [exact Hk|]. simpl.
    destruct (run r s' c' _); [discriminate | exact Hk].
  - apply (repeat_complete r) with (c' := c'); auto.
  - rewrite append_assoc. eapply IH; eauto.
    eapply repeat_complete; eauto.
  - destruct (run r s' c' _); [discriminate | exact Hk].
  - destruct (run r (w ++ s') c _) eqn:E; [discriminate|].
    exfalso. revert E. eapply IH; eauto.
    rewrite nonempty_shorter by assumption. exact Hk.
  - eapply IH; eauto. rewrite consumed_append. exact Hk.
Qed.

End Completeness.

(** *** [regex_search] *)

Lemma match_here_sound (r : regex) (s s' : string) (c : option string) :
  match_here r s = Some (s', c) ->
  exists w, s = w ++ s' /\ matches r w None c.
Proof.
  unfold match_here. intros H. apply run_sound in H.
  destruct H as (w & s1 & c1 & -> & Hm & E). injection E as <- <-. eauto.
Qed.

Lemma match_here_complete (r : regex) (w v : string) (c : option string) :
  matches r w None c -> match_here r (w ++ v) <> None.
Proof.
  intros Hm. unfold match_here. eapply run_complete; eauto. discriminate.
Qed.

Lemma match_here_consumed (r : regex) (s s' : string) (c : option string) :
  match_here r s = Some (s', c) ->
  s = consumed s s' ++ s' /\ matches r (consumed s s') None c.
Proof.
  intros H. apply match_here_sound in H. destruct H as (w & -> & Hm).
  rewrite consumed_append. auto.
Qed.

Lemma search_from_eq (r : regex) (pre s : string) :
  search_from r pre s =
  match match_here r s with
  | Some (s', cap) =>
      Some {| prefix := pre; whole := consumed s s'; group1 := cap; suffix := s' |}
  | None =>
      match s with
      | EmptyString => None
      | String a s' => search_from r (pre ++ String a EmptyString) s'
      end
  end.
Proof. destruct s; reflexivity. Qed.

Lemma search_from_sound (r : regex) (s pre : string) (m : smatch) :
  search_from r pre s = Some m ->
  pre ++ s = prefix m ++ whole m ++ suffix m /\
  matches r (whole m) None (group1 m).
Proof.
  revert pre. induction s as [|a s IH]; intros pre H;
    rewrite search_from_eq in H;
    destruct (match_here r _) as [[s' c]|] eqn:E; try discriminate.
  - injection H as <-. apply match_here_consumed in E.
    destruct E as [E Hm]. cbn [prefix whole group1 suffix]. rewrite <- E. auto.
  - injection H as <-. apply match_here_consumed in E.
    destruct E as [E Hm]. cbn [prefix whole group1 suffix]. rewrite <- E. auto.
  - apply IH in H. rewrite append_assoc in H. exact H.
Qed.

Lemma search_from_complete (r : regex) (u w v : string) (c : option string) :
  matches r w None c ->
  forall pre, search_from r pre (u ++ w ++ v) <> None.
Proof.
  intros Hm. induction u as [|a u IH]; intros pre.
  - simpl. destruct (w ++ v) eqn:E; simpl;
      (destruct (match_here r _) as [[s' c']|] eqn:E'; [discriminate|]);
      exfalso; rewrite <- E in E'; revert E'; eapply match_here_complete; eauto.
  - simpl. destruct (match_here r _) as [[s' c']|]; [discriminate | apply IH].
Qed.

Theorem regex_search_sound (s : string) (r : regex) (m : smatch) :
  regex_search s r = Some m ->
  s = prefix m ++ whole m ++ suffix m /\ matches r (whole m) None (group1 m).
Proof. intros H. apply search_from_sound in H. exact H. Qed.

Theorem regex_search_complete (r : regex) (u w v : string) (c : option string) :
  matches r w None c -> regex_search (u ++ w ++ v) r <> None.
Proof. intros Hm. now apply search_from_complete with (c := c). Qed.

(** No match starts to the left of the one the search returns. *)
Lemma search_from_leftmost (r : regex) (s pre : string) (m : smatch) :
  search_from r pre s = Some m ->
  forall u w v c, s = u ++ w ++ v -> matches r w None c ->
  length (prefix m) <= length pre + length u.
Proof.
  revert pre. induction s as [|a s IH]; intros pre H u w v c E Hm;
    rewrite search_from_eq in H;
    destruct (match_here r _) as [[s' c']|] eqn:E'; try discriminate;
    try (injection H as <-; cbn [prefix]; lia).
  destruct u as [|b u].
  - exfalso. simpl in E. rewrite E in E'. revert E'.
    eapply match_here_complete; eauto.
  - simpl in E. injection E as <- E.
    specialize (IH _ H u w v c E Hm).
    rewrite length_append in IH. simpl in IH. simpl. lia.
Qed.

Theorem regex_search_leftmost (s : string) (r : regex) (m : smatch) :
  regex_search s r = Some m ->
  forall u w v c, s = u ++ w ++ v -> matches r w None c ->
  length (prefix m) <= length u.
Proof.
  intros H u w v c E Hm.
  apply (search_from_leftmost r s EmptyString m H u w v c E Hm).
Qed.

(** The search fails exactly on the texts no part of which the pattern
    matches. *)
Theorem regex_search_none (s : string) (r : regex) :
  regex_search s r = None <->
  (forall u w v c, s = u ++ w ++ v -> ~ matches r w None c).
Proof.
  split.
  - intros H u w v c -> Hm. revert H. eapply regex_search_complete; eauto.
  - intros H. destruct (regex_search s r) as [m|] eqn:E; [|reflexivity].
    apply regex_search_sound in E. destruct E as [E Hm].
    exfalso. eapply H; eauto.
Qed.

(** *** What the patterns of the program match *)

Lemma matches_Chr (a : ascii) (w : string) (c c' : option string) :
  matches (Chr a) w c c' <-> w = String a EmptyString /\ c' = c.
Proof.
  split.
  - intros H. inversion H; subst. auto.
  - intros [-> ->]. constructor.
Qed.

Lemma matches_Cat (r1 r2 : regex) (w : string) (c c' : option string) :
  matches (Cat r1 r2) w c c' <->
  exists w1 w2 c1, w = w1 ++ w2 /\ matches r1 w1 c c1 /\ matches r2 w2 c1 c'.
Proof.
  split.
  - intros H. inversion H; subst. eauto 7.
  - intros (w1 & w2 & c1 & -> & H1 & H2). econstructor; eauto.
Qed.

Lemma matches_Group (r : regex) (w : string) (c c' : option string) :
  matches (Group r) w c c' <-> (exists c1, matches r w c c1) /\ c' = Some w.
Proof.
  split.
  - intros H. inversion H; subst. eauto.
  - intros [[c1 H] ->]. econstructor; eauto.
Qed.

Lemma matches_Opt (r : regex) (w : string) (c c' : option string) :
  matches (Opt r) w c c' <->
  (w = EmptyString /\ c' = c) \/ (w <> EmptyString /\ matches r w c c').
Proof.
  split.
  - intros H. inversion H; subst; auto.
  - intros [[-> ->] | [Hne H]]; now constructor.
Qed.

Lemma matches_lit (u : string) (r : regex) (w : string) (c c' : option string) :
  matches (lit u r) w c c' <-> exists w', w = u ++ w' /\ matches r w' c c'.
Proof.
  revert w. induction u as [|a u IH]; intros w; simpl.
  - split; [eauto | intros (w' & -> & H); exact H].
  - rewrite matches_Cat. split.
    + intros (w1 & w2 & c1 & -> & H1 & H2).
      apply matches_Chr in H1. destruct H1 as [-> ->].
      apply IH in H2. destruct H2 as (w' & -> & H2). exists w'. auto.
    + intros (w' & -> & H). exists (String a EmptyString), (u ++ w'), c.
      repeat split; [constructor | apply IH; eauto].
Qed.

Lemma matches_digit (w : string) (c c' : option string) :
  matches digit w c c' <->
  exists a, w = String a EmptyString /\ is_digit a = true /\ c' = c.
Proof.
  split.
  - intros H. inversion H; subst. eauto.
  - intros (a & -> & H & ->). now constructor.
Qed.

Lemma matches_Star_digit (w : string) (c c' : option string) :
  matches (Star digit) w c c' <-> all_digits w = true /\ c' = c.
Proof.
  split.
  - intros H. remember (Star digit) as sr eqn:E.
    induction H; try discriminate; injection E as ->; [auto|].
    match goal with H : matches digit _ _ _ |- _ =>
      apply matches_digit in H; destruct H as (a & -> & Ha & ->) end.
    destruct IHmatches2 as [Hd ->]; [reflexivity|].
    simpl. rewrite Ha, Hd. auto.
  - intros [H ->]. induction w as [|a w IH]; [constructor|].
    simpl in H. apply andb_prop in H. destruct H as [Ha Hw].
    change (String a w) with (String a EmptyString ++ w).
    eapply M_Star_more; [discriminate | now constructor | auto].
Qed.

Lemma matches_Plus_digit (w : string) (c c' : option string) :
  matches (Plus digit) w c c' <-> digits1 w = true /\ c' = c.
Proof.
  split.
  - intros H. inversion H; subst.
    match goal with H : matches digit _ _ _ |- _ =>
      apply matches_digit in H; destruct H as (a & -> & Ha & ->) end.
    match goal with H : matches (Star digit) _ _ _ |- _ =>
      apply matches_Star_digit in H; destruct H as [Hd ->] end.
    simpl. rewrite Ha, Hd. auto.
  - intros [H ->]. destruct w as [|a w]; [discriminate|].
    simpl in H. apply andb_prop in H. destruct H as [Ha Hw].
    change (String a w) with (String a EmptyString ++ w).
    econstructor; [now constructor | now apply matches_Star_digit].
Qed.

Lemma matches_Opt_Space (w : string) (c c' : option string) :
  matches (Opt Space) w c c' <-> space01 w = true /\ c' = c.
Proof.
  rewrite matches_Opt. split.
  - intros [[-> ->] | [_ H]]; [auto|]. inversion H; subst. auto.
  - intros [H ->]. destruct w as [|a [|b w]]; try discriminate; [auto|].
    right. split; [discriminate | now constructor].
Qed.

Lemma drop_digits_all (d : string) :
  all_digits d = true -> drop_digits d = EmptyString.
Proof.
  induction d as [|a d IH]; simpl; [reflexivity|].
  intros H. apply andb_prop in H. destruct H as [-> H]. auto.
Qed.

Lemma drop_digits_app (i x : string) :
  all_digits i = true -> drop_digits (i ++ x) = drop_digits x.
Proof.
  induction i as [|a i IH]; simpl; [reflexivity|].
  intros H. apply andb_prop in H. destruct H as [-> H]. auto.
Qed.

Lemma split_digits (w : string) :
  exists i, w = i ++ drop_digits w /\ all_digits i = true.
Proof.
  induction w as [|a w (i & E & Hi)]; simpl.
  - exists EmptyString. auto.
  - destruct (is_digit a) eqn:Ha.
    + exists (String a i). simpl. rewrite Ha, Hi, <- E. auto.
    + exists EmptyString. auto.
Qed.

Lemma drop_digits_head (w : string) :
  match drop_digits w with
  | String b _ => is_digit b = false
  | EmptyString => True
  end.
Proof.
  induction w as [|a w IH]; simpl; [exact I|].
  destruct (is_digit a) eqn:Ha; [exact IH | exact Ha].
Qed.

(** The capture group of [r_time]: [[0-9]+\.?[0-9]*]. *)
Lemma matches_numeral (n : string) (c c' : option string) :
  matches (Plus digit @@ Opt (Chr ".") @@ Star digit)%re n c c' <->
  numeral n = true /\ c' = c.
Proof.
  rewrite matches_Cat. split.
  - intros (i & x & c1 & -> & Hi & Hx).
    apply matches_Plus_digit in Hi. destruct Hi as [Hi ->].
    apply matches_Cat in Hx. destruct Hx as (f & d & c1 & -> & Hf & Hd).
    apply matches_Star_digit in Hd. destruct Hd as [Hd ->].
    split.
    2:{ apply matches_Opt in Hf. destruct Hf as [[_ ->] | [_ Hf]]; [reflexivity|].
        apply matches_Chr in Hf. now destruct Hf. }
    destruct i as [|a i]; [discriminate|].
    simpl in Hi. apply andb_prop in Hi. destruct Hi as [Ha Hi].
    unfold numeral. cbn [append]. rewrite Ha. cbn [drop_digits]. rewrite Ha.
    rewrite drop_digits_app by exact Hi.
    apply matches_Opt in Hf. destruct Hf as [[-> _] | [_ Hf]].
    + simpl. now rewrite drop_digits_all.
    + apply matches_Chr in Hf. destruct Hf as [-> _]. simpl. exact Hd.
  - intros [H ->]. unfold numeral in H.
    destruct n as [|a n]; [discriminate|].
    apply andb_prop in H. destruct H as [Ha H].
    destruct (split_digits (String a n)) as (i & E & Hi).
    assert (Hi1 : digits1 i = true).
    { destruct i as [|b i]; [|exact Hi]. cbn [append] in E.
      pose proof (drop_digits_head (String a n)) as Hh.
      rewrite <- E in Hh. congruence. }
    exists i, (drop_digits (String a n)), c.
    split; [exact E|]. split; [now apply matches_Plus_digit|].
    destruct (drop_digits (String a n)) as [|b d].
    + apply matches_Cat. exists EmptyString, EmptyString, c.
      repeat split; constructor.
    + apply andb_prop in H. destruct H as [Hb Hd].
      apply Ascii.eqb_eq in Hb. subst b.
      apply matches_Cat. exists ".", d, c.
      repeat split.
      * apply M_Opt_some; [discriminate | constructor].
      * now apply matches_Star_digit.
Qed.

End RegexFacts.

(** ** The read loop *)

Module StdioFacts.

Import Stdio StrFacts.

Lemma fgets_line_split (room : nat) (stream line rest : string) :
  fgets_line room stream = (line, rest) -> stream = line ++ rest.
Proof.
  revert stream line rest.
  induction room as [|room IH]; intros [|a s] line rest H; simpl in H;
    try (injection H as <- <-; reflexivity).
  destruct (Ascii.eqb a LF).
  - injection H as <- <-. reflexivity.
  - destruct (fgets_line room s) as [l r] eqn:E.
    injection H as <- <-. simpl. f_equal. now apply IH.
Qed.

Lemma fgets_line_progress (room : nat) (a : ascii) (s line rest : string) :
  fgets_line (S room) (String a s) = (line, rest) -> length rest < length (String a s).
Proof.
  intros H. simpl in H. destruct (Ascii.eqb a LF).
  - injection H as <- <-. simpl. lia.
  - destruct (fgets_line room s) as [l r] eqn:E. injection H as <- <-.
    apply fgets_line_split in E. subst s. simpl. rewrite length_append. lia.
Qed.

Lemma fgets_progress (stream buffer rest : string) :
  fgets 128 stream = Some (buffer, rest) ->
  stream = buffer ++ rest /\ length rest < length stream.
Proof.
  destruct stream as [|a s]; [discriminate|].
  unfold fgets. change (128 - 1) with (S 126). intros H.
  assert (H' : fgets_line (S 126) (String a s) = (buffer, rest)) by congruence.
  clear H. split.
  - now apply fgets_line_split in H'.
  - now apply fgets_line_progress in H'.
Qed.

(** The loop reads the stream to its end within the rounds [read_all]
    allows: further rounds change nothing. *)
Lemma read_loop_step (fuel : nat) (pipe result : string) :
  length pipe <= fuel ->
  read_loop (S fuel) pipe result = read_loop fuel pipe result.
Proof.
  revert pipe result. induction fuel as [|fuel IH]; intros pipe result H.
  - destruct pipe; [reflexivity | simpl in H; lia].
  - change (read_loop (S (S fuel)) pipe result)
      with (match fgets 128 pipe with
            | None => result
            | Some (buffer, pipe') => read_loop (S fuel) pipe' (result ++ c_str buffer)
            end).
    change (read_loop (S fuel) pipe result)
      with (match fgets 128 pipe with
            | None => result
            | Some (buffer, pipe') => read_loop fuel pipe' (result ++ c_str buffer)
            end).
    destruct (fgets 128 pipe) as [[buffer pipe']|] eqn:E; [|reflexivity].
    apply fgets_progress in E. apply IH. lia.
Qed.

Theorem read_loop_fuel (fuel : nat) (pipe result : string) :
  length pipe <= fuel ->
  read_loop fuel pipe result = read_loop (length pipe) pipe result.
Proof.
  induction fuel as [|fuel IH]; intros H.
  - replace (length pipe) with 0 by lia. reflexivity.
  - destruct (Nat.eq_dec (length pipe) (S fuel)) as [->|Hne]; [reflexivity|].
    rewrite read_loop_step by lia. apply IH. lia.
Qed.

Lemma no_nul_app (a b : string) :
  no_nul (a ++ b) = no_nul a && no_nul b.
Proof.
  induction a as [|x a IH]; simpl; [reflexivity|].
  now rewrite IH, andb_assoc.
Qed.

Lemma c_str_no_nul (s : string) : no_nul s = true -> c_str s = s.
Proof.
  induction s as [|a s IH]; simpl; [reflexivity|].
  intros H. apply andb_prop in H. destruct H as [Ha Hs].
  destruct (Ascii.eqb a NUL); [discriminate|]. now rewrite IH.
Qed.

Lemma read_loop_no_nul (fuel : nat) (pipe result : string) :
  length pipe <= fuel -> no_nul pipe = true ->
  read_loop fuel pipe result = result ++ pipe.
Proof.
  revert pipe result. induction fuel as [|fuel IH]; intros pipe result H Hn.
  - destruct pipe; [simpl; now rewrite append_nil_r | simpl in H; lia].
  - change (read_loop (S fuel) pipe result)
      with (match fgets 128 pipe with
            | None => result
            | Some (buffer, pipe') => read_loop fuel pipe' (result ++ c_str buffer)
            end).
    destruct (fgets 128 pipe) as [[buffer pipe']|] eqn:E.
    + apply fgets_progress in E. destruct E as [-> L].
      rewrite no_nul_app in Hn. apply andb_prop in Hn. destruct Hn as [Hb Hp].
      rewrite IH by (try assumption; lia).
      rewrite c_str_no_nul by exact Hb. apply append_assoc.
    + destruct pipe; [now rewrite append_nil_r | discriminate].
Qed.

Lemma read_all_clean (pipe : string) :
  no_nul pipe = true -> read_all pipe = pipe.
Proof.
  intros H. unfold read_all. now rewrite read_loop_no_nul.
Qed.

(** X1: the text the program scans is the whole output of the command, as
    long as that output holds no NUL character: neither the 128-character
    buffer nor the line breaks lose or reorder anything. *)
Theorem read_all_no_nul (pipe : string) :
  no_nul pipe = true -> read_all pipe = pipe.
Proof. exact (read_all_clean pipe). Qed.

Lemma read_all_no_nul_witness :
  read_all Ping.Samples.linux_reply = Ping.Samples.linux_reply.
Proof. apply read_all_no_nul. reflexivity. Defined.

Lemma c_str_clean (buf : string) : no_nul (c_str buf) = true.
Proof.
  induction buf as [|a buf IH]; simpl; [reflexivity|].
  destruct (Ascii.eqb a NUL) eqn:E; simpl; [reflexivity|].
  now rewrite E, IH.
Qed.

Lemma c_str_length (buf : string) : length (c_str buf) <= length buf.
Proof.
  induction buf as [|a buf IH]; simpl; [lia|].
  destruct (Ascii.eqb a NUL); simpl; lia.
Qed.

Lemma c_str_app (a b : string) :
  no_nul a = true -> c_str (a ++ b) = a ++ c_str b.
Proof.
  induction a as [|x a IH]; simpl; [reflexivity|].
  intros H. apply andb_prop in H. destruct H as [Hx Ha].
  destruct (Ascii.eqb x NUL); [discriminate|]. now rewrite IH.
Qed.

Lemma read_loop_eq (fuel : nat) (pipe result : string) :
  read_loop (S fuel) pipe result =
  match fgets 128 pipe with
  | None => result
  | Some (buffer, pipe') => read_loop fuel pipe' (result ++ c_str buffer)
  end.
Proof. reflexivity. Qed.

Lemma read_loop_bounds (fuel : nat) (pipe result : string) :
  no_nul result = true ->
  no_nul (read_loop fuel pipe result) = true /\
  length (read_loop fuel pipe result) <= length result + length pipe.
Proof.
  revert pipe result. induction fuel as [|fuel IH]; intros pipe result H.
  - simpl. split; [exact H | lia].
  - rewrite read_loop_eq.
    destruct (fgets 128 pipe) as [[buffer pipe']|] eqn:E; [|split; [exact H | lia]].
    apply fgets_progress in E. destruct E as [-> _].
    destruct (IH pipe' (result ++ c_str buffer)) as [H1 H2].
    { now rewrite no_nul_app, H, c_str_clean. }
    split; [exact H1|].
    rewrite !length_append in *. pose proof (c_str_length buffer). lia.
Qed.

(** X2: whatever the command writes, the text the program scans holds no
    NUL character and is no longer than what was written: the loop only
    drops characters (those from a NUL to the end of the chunk read with
    it), it never adds any. *)
Theorem read_all_bounds (pipe : string) :
  no_nul (read_all pipe) = true /\ length (read_all pipe) <= length pipe.
Proof.
  unfold read_all.
  destruct (read_loop_bounds (length pipe) pipe EmptyString eq_refl) as [H1 H2].
  split; [exact H1 | exact H2].
Qed.

Lemma read_loop_acc (fuel : nat) (pipe result : string) :
  read_loop fuel pipe result = result ++ read_loop fuel pipe EmptyString.
Proof.
  revert pipe result. induction fuel as [|fuel IH]; intros pipe result.
  - simpl. now rewrite append_nil_r.
  - rewrite !read_loop_eq.
    destruct (fgets 128 pipe) as [[buffer pipe']|]; [|now rewrite append_nil_r].
    rewrite IH. rewrite (IH pipe' (EmptyString ++ c_str buffer)).
    simpl. now rewrite append_assoc.
Qed.

Lemma append_split (a b c d : string) :
  a ++ b = c ++ d ->
  (exists x, a = c ++ x /\ d = x ++ b) \/ (exists x, c = a ++ x /\ b = x ++ d).
Proof.
  revert c. induction a as [|x a IH]; intros c H.
  - right. exists c. auto.
  - destruct c as [|y c].
    + left. exists (String x a). auto.
    + simpl in H. injection H as -> H.
      destruct (IH c H) as [(z & -> & ->) | (z & -> & ->)];
        [left | right]; exists z; auto.
Qed.

Lemma read_loop_keeps_prefix (fuel : nat) (a b result : string) :
  length (a ++ b) <= fuel -> no_nul a = true ->
  exists t, read_loop fuel (a ++ b) result = result ++ a ++ t.
Proof.
  revert a b result. induction fuel as [|fuel IH]; intros a b result L Ha.
  - destruct a; [|simpl in L; lia]. exists EmptyString. simpl.
    now rewrite append_nil_r.
  - rewrite read_loop_eq.
    destruct (fgets 128 (a ++ b)) as [[buffer rest]|] eqn:E.
    + apply fgets_progress in E. destruct E as [E Lr].
      destruct (append_split _ _ _ _ E) as [(x & -> & ->) | (x & -> & ->)].
      * rewrite no_nul_app in Ha. apply andb_prop in Ha. destruct Ha as [Hb Hx].
        rewrite c_str_no_nul by exact Hb.
        destruct (IH x b (result ++ buffer)) as (t & Ht); [lia | exact Hx |].
        exists t. rewrite Ht. now rewrite !append_assoc.
      * rewrite c_str_app by exact Ha. rewrite read_loop_acc.
        exists (c_str x ++ read_loop fuel rest EmptyString).
        now rewrite !append_assoc.
    + destruct a; [|discriminate]. exists EmptyString. simpl.
      now rewrite append_nil_r.
Qed.

(** X3: the output up to its first NUL is scanned in full: when the
    command writes [a] without NUL and then anything, the scanned text
    starts with all of [a]. *)
Theorem read_all_keeps_prefix (a b : string) :
  no_nul a = true -> exists t, read_all (a ++ b) = a ++ t.
Proof.
  intros Ha. unfold read_all.
  destruct (read_loop_keeps_prefix (length (a ++ b)) a b EmptyString (le_n _) Ha)
    as (t & Ht).
  exists t. exact Ht.
Qed.

Lemma read_all_keeps_prefix_witness :
  exists t,
    read_all ("time=5 ms" ++ String NUL "time=7 ms") = "time=5 ms" ++ t.
Proof. apply (read_all_keeps_prefix "time=5 ms"). reflexivity. Defined.

End StdioFacts.

(** ** The program *)

Module PingFacts.

Import Regex Stdio Ping StrFacts RegexFacts.

Lemma r_time_parsed : parse r_time_src = Some r_time.
Proof. reflexivity. Qed.

Lemma r_time_win_parsed : parse r_time_win_src = Some r_time_win.
Proof. reflexivity. Qed.

Lemma matches_r_time (w : string) (c c' : option string) :
  matches r_time w c c' <->
  exists n ws, w = "time=" ++ n ++ ws ++ "ms" /\
               numeral n = true /\ space01 ws = true /\ c' = Some n.
Proof.
  unfold r_time. rewrite matches_lit. split.
  - intros (w' & -> & H).
    apply matches_Cat in H. destruct H as (n & x & c1 & -> & Hn & H).
    apply matches_Group in Hn. destruct Hn as [[c0 Hn] ->].
    apply matches_numeral in Hn. destruct Hn as [Hn _].
    apply matches_Cat in H. destruct H as (ws & y & c1 & -> & Hws & H).
    apply matches_Opt_Space in Hws. destruct Hws as [Hws ->].
    apply matches_Cat in H. destruct H as (y1 & y2 & c1 & -> & H1 & H2).
    apply matches_Chr in H1. destruct H1 as [-> ->].
    apply matches_Chr in H2. destruct H2 as [-> ->].
    exists n, ws. auto.
  - intros (n & ws & -> & Hn & Hws & ->).
    exists (n ++ ws ++ "ms"). split; [reflexivity|].
    apply matches_Cat. exists n, (ws ++ "ms"), (Some n).
    split; [reflexivity|]. split.
    + apply matches_Group. split; [|reflexivity].
      exists c. now apply matches_numeral.
    + apply matches_Cat. exists ws, "ms", (Some n).
      split; [reflexivity|]. split; [now apply matches_Opt_Space|].
      apply matches_Cat. exists "m", "s", (Some n).
      repeat split; constructor.
Qed.

Lemma matches_r_time_win (w : string) (c c' : option string) :
  matches r_time_win w c c' <->
  exists n, w = "Average = " ++ n ++ "ms" /\ digits1 n = true /\ c' = Some n.
Proof.
  unfold r_time_win. rewrite matches_lit. split.
  - intros (w' & -> & H).
    apply matches_Cat in H. destruct H as (n & x & c1 & -> & Hn & H).
    apply matches_Group in Hn. destruct Hn as [[c0 Hn] ->].
    apply matches_Plus_digit in Hn. destruct Hn as [Hn _].
    apply matches_Cat in H. destruct H as (y1 & y2 & c1 & -> & H1 & H2).
    apply matches_Chr in H1. destruct H1 as [-> ->].
    apply matches_Chr in H2. destruct H2 as [-> ->].
    exists n. auto.
  - intros (n & -> & Hn & ->).
    exists (n ++ "ms"). split; [reflexivity|].
    apply matches_Cat. exists n, "ms", (Some n).
    split; [reflexivity|]. split.
    + apply matches_Group. split; [|reflexivity].
      exists c. now apply matches_Plus_digit.
    + apply matches_Cat. exists "m", "s", (Some n).
      repeat split; constructor.
Qed.

(** A successful search for [r_time] found a time report, and captured its
    numeral. *)
Lemma search_r_time_some (s : string) (m : smatch) :
  regex_search s r_time = Some m ->
  exists n ws,
    group1 m = Some n /\ numeral n = true /\ space01 ws = true /\
    s = prefix m ++ "time=" ++ n ++ ws ++ "ms" ++ suffix m.
Proof.
  intros H. apply regex_search_sound in H. destruct H as [E Hm].
  apply matches_r_time in Hm. destruct Hm as (n & ws & Hw & Hn & Hws & Hc).
  exists n, ws. repeat split; try assumption.
  rewrite E, Hw. cbn [append]. now rewrite !append_assoc.
Qed.

Lemma search_r_time_win_some (s : string) (m : smatch) :
  regex_search s r_time_win = Some m ->
  exists n,
    group1 m = Some n /\ digits1 n = true /\
    s = prefix m ++ "Average = " ++ n ++ "ms" ++ suffix m.
Proof.
  intros H. apply regex_search_sound in H. destruct H as [E Hm].
  apply matches_r_time_win in Hm. destruct Hm as (n & Hw & Hn & Hc).
  exists n. repeat split; try assumption.
  rewrite E, Hw. cbn [append]. now rewrite !append_assoc.
Qed.

Lemma search_r_time_iff (s : string) :
  regex_search s r_time <> None <-> exists n, time_report s n.
Proof.
  split.
  - destruct (regex_search s r_time) as [m|] eqn:E; [intros _ | congruence].
    apply search_r_time_some in E. destruct E as (n & ws & _ & Hn & Hws & E).
    exists n, (prefix m), ws, (suffix m). auto.
  - intros (n & u & ws & v & -> & Hn & Hws).
    replace (u ++ "time=" ++ n ++ ws ++ "ms" ++ v)
      with (u ++ ("time=" ++ n ++ ws ++ "ms") ++ v).
    + eapply regex_search_complete. apply matches_r_time. eauto 6.
    + cbn [append]. now rewrite !append_assoc.
Qed.

Lemma search_r_time_win_iff (s : string) :
  regex_search s r_time_win <> None <-> exists n, average_report s n.
Proof.
  split.
  - destruct (regex_search s r_time_win) as [m|] eqn:E; [intros _ | congruence].
    apply search_r_time_win_some in E. destruct E as (n & _ & Hn & E).
    exists n, (prefix m), (suffix m). auto.
  - intros (n & u & v & -> & Hn).
    replace (u ++ "Average = " ++ n ++ "ms" ++ v)
      with (u ++ ("Average = " ++ n ++ "ms") ++ v).
    + eapply regex_search_complete. apply matches_r_time_win. eauto 6.
    + cbn [append]. now rewrite !append_assoc.
Qed.

(** The search returns the report that begins first. *)
Lemma time_report_not_before (s u n ws v : string) (m : smatch) :
  regex_search s r_time = Some m ->
  s = u ++ "time=" ++ n ++ ws ++ "ms" ++ v ->
  numeral n = true -> space01 ws = true ->
  length (prefix m) <= length u.
Proof.
  intros H E Hn Hws.
  apply (search_from_leftmost r_time s EmptyString m H
           u ("time=" ++ n ++ ws ++ "ms") v (Some n)).
  - rewrite E. cbn [append]. now rewrite !append_assoc.
  - apply matches_r_time. exists n, ws. auto.
Qed.

Lemma average_report_not_before (s u n v : string) (m : smatch) :
  regex_search s r_time_win = Some m ->
  s = u ++ "Average = " ++ n ++ "ms" ++ v ->
  digits1 n = true ->
  length (prefix m) <= length u.
Proof.
  intros H E Hn.
  apply (search_from_leftmost r_time_win s EmptyString m H
           u ("Average = " ++ n ++ "ms") v (Some n)).
  - rewrite E. cbn [append]. now rewrite !append_assoc.
  - apply matches_r_time_win. exists n. auto.
Qed.

Lemma search_r_time_first (s : string) (m : smatch) :
  regex_search s r_time = Some m ->
  exists n, group1 m = Some n /\ first_time_report s n.
Proof.
  intros H.
  destruct (search_r_time_some s m H) as (n & ws & Hg & Hn & Hws & E).
  exists n. split; [exact Hg|].
  exists (prefix m), ws, (suffix m). repeat split; auto.
  intros u' n' ws' v' E' Hn' Hws'.
  now apply (time_report_not_before s u' n' ws' v' m).
Qed.

Lemma search_r_time_win_first (s : string) (m : smatch) :
  regex_search s r_time_win = Some m ->
  exists n, group1 m = Some n /\ first_average_report s n.
Proof.
  intros H.
  destruct (search_r_time_win_some s m H) as (n & Hg & Hn & E).
  exists n. split; [exact Hg|].
  exists (prefix m), (suffix m). repeat split; auto.
  intros u' n' v' E' Hn'.
  now apply (average_report_not_before s u' n' v' m).
Qed.

Section Runs.

Variable os : system.

(** The four ways through [main], for a run from a fresh process. *)
Lemma run_usage (argv : list string) :
  List.length argv <> 2 ->
  main os argv start =
  (1%Z, {| cout := EmptyString;
           cerr := "Usage: " ++ nth 0 argv EmptyString ++ " <host-or-ip>" ++ Str.nl;
           spawned := [] |}).
Proof.
  intros H. unfold main. apply Nat.eqb_neq in H. rewrite H. reflexivity.
Qed.

Lemma run_popen_failed (p h : string) :
  os (command h) = None ->
  main os [p; h] start =
  (1%Z, {| cout := EmptyString;
           cerr := "Failed to run ping command" ++ Str.nl;
           spawned := [command h] |}).
Proof.
  intros H. cbv [main bind popen put_cerr ret List.length Nat.eqb negb nth].
  rewrite H. reflexivity.
Qed.

Lemma run_time (p h stream : string) (m : smatch) :
  os (command h) = Some stream ->
  regex_search (read_all stream) r_time = Some m ->
  main os [p; h] start =
  (0%Z, {| cout := "Reply from " ++ h ++ ": time=" ++ str (group1 m) ++ " ms" ++ Str.nl;
           cerr := leaked os (command h);
           spawned := [command h] |}).
Proof.
  intros H H1. cbv [main bind popen put_cout ret List.length Nat.eqb negb nth].
  rewrite H, H1. reflexivity.
Qed.

Lemma run_average (p h stream : string) (m : smatch) :
  os (command h) = Some stream ->
  regex_search (read_all stream) r_time = None ->
  regex_search (read_all stream) r_time_win = Some m ->
  main os [p; h] start =
  (0%Z, {| cout := "Reply from " ++ h ++ ": time=" ++ str (group1 m)
                     ++ " ms (avg)" ++ Str.nl;
           cerr := leaked os (command h);
           spawned := [command h] |}).
Proof.
  intros H H1 H2. cbv [main bind popen put_cout ret List.length Nat.eqb negb nth].
  rewrite H, H1, H2. reflexivity.
Qed.

Lemma run_no_reply (p h stream : string) :
  os (command h) = Some stream ->
  regex_search (read_all stream) r_time = None ->
  regex_search (read_all stream) r_time_win = None ->
  main os [p; h] start =
  (2%Z, {| cout := ("No reply / unable to parse time. Raw output:" ++ Str.nl)
                     ++ read_all stream ++ Str.nl;
           cerr := leaked os (command h);
           spawned := [command h] |}).
Proof.
  intros H H1 H2. cbv [main bind popen put_cout ret List.length Nat.eqb negb nth].
  rewrite H, H1, H2. reflexivity.
Qed.

Lemma two_arguments (argv : list string) :
  List.length argv = 2 -> exists p h, argv = [p; h].
Proof.
  destruct argv as [|p [|h [|x argv]]]; try discriminate. eauto.
Qed.

(** The exit code, by cases on the run. *)
Lemma exit_code_split (argv : list string) :
  let host := nth 1 argv EmptyString in
  let code := exit_code os argv in
  (code = 0 \/ code = 1 \/ code = 2)%Z /\
  (code = 1%Z <->
     (List.length argv <> 2 \/ os (command host) = None)) /\
  (code = 0%Z <->
     (List.length argv = 2 /\
      exists stream, os (command host) = Some stream /\
        (regex_search (read_all stream) r_time <> None \/
         regex_search (read_all stream) r_time_win <> None))) /\
  (code = 2%Z <->
     (List.length argv = 2 /\
      exists stream, os (command host) = Some stream /\
        regex_search (read_all stream) r_time = None /\
        regex_search (read_all stream) r_time_win = None)).
Proof.
  cbv zeta. unfold exit_code.
  destruct (Nat.eq_dec (List.length argv) 2) as [L|L].
  2:{ rewrite run_usage by exact L. cbn [fst].
      repeat split; auto; try discriminate; intros H; tauto. }
  destruct (two_arguments argv L) as (p & h & ->). cbn [nth].
  destruct (os (command h)) as [stream|] eqn:E.
  2:{ rewrite run_popen_failed by exact E. cbn [fst].
      repeat split; auto; try discriminate;
        intros H; try tauto; destruct H as [_ (x & H & _)]; discriminate. }
  destruct (regex_search (read_all stream) r_time) as [m|] eqn:E1.
  { rewrite (run_time p h stream m E E1). cbn [fst].
    repeat split; auto; try discriminate.
    - intros [H|H]; [contradiction | discriminate].
    - exists stream. rewrite E1. split; [reflexivity | left; discriminate].
    - intros [_ (x & H & H1 & _)]. congruence. }
  destruct (regex_search (read_all stream) r_time_win) as [m|] eqn:E2.
  { rewrite (run_average p h stream m E E1 E2). cbn [fst].
    repeat split; auto; try discriminate.
    - intros [H|H]; [contradiction | discriminate].
    - exists stream. rewrite E2. split; [reflexivity | right; discriminate].
    - intros [_ (x & H & _ & H2)]. congruence. }
  rewrite (run_no_reply p h stream E E1 E2). cbn [fst].
  repeat split; auto; try discriminate.
  - intros [H|H]; [contradiction | discriminate].
  - intros [_ (x & H & [H1|H2])]; congruence.
  - exists stream. rewrite E1, E2. auto.
Qed.

(** When the command writes no NUL, the scanned text is all it wrote, and
    the run succeeds exactly when that text reports a time. *)
Lemma exit_code_of_output (p h stream : string) :
  os (command h) = Some stream -> no_nul stream = true ->
  (exit_code os [p; h] = 0%Z <-> reports_time stream).
Proof.
  intros E Hn. destruct (exit_code_split [p; h]) as (_ & _ & H0 & _).
  cbn [nth] in H0. rewrite H0. clear H0.
  unfold reports_time. rewrite <- search_r_time_iff, <- search_r_time_win_iff.
  split.
  - intros [_ (x & Hx & H)].
    assert (x = stream) by congruence. subst x.
    now rewrite (StdioFacts.read_all_clean stream Hn) in H.
  - intros H. split; [reflexivity|]. exists stream. split; [exact E|].
    now rewrite (StdioFacts.read_all_clean stream Hn).
Qed.

(** How the process ends on each path. *)
Lemma process_exit_usage (argv : list string) :
  List.length argv <> 2 -> process_exit os argv = Some (exit_code os argv).
Proof.
  intros L. unfold process_exit, exit_code. now rewrite (run_usage argv L).
Qed.

Lemma process_exit_two (p h : string) :
  process_exit os [p; h] =
  if pclose_returns os (command h) then Some (exit_code os [p; h]) else None.
Proof.
  unfold process_exit, exit_code.
  destruct (os (command h)) as [stream|] eqn:E.
  2:{ rewrite (run_popen_failed p h E). cbn [forallb spawned fst].
      now rewrite andb_true_r. }
  destruct (regex_search (read_all stream) r_time) as [m|] eqn:E1.
  { rewrite (run_time p h stream m E E1). cbn [forallb spawned fst].
    now rewrite andb_true_r. }
  destruct (regex_search (read_all stream) r_time_win) as [m|] eqn:E2.
  { rewrite (run_average p h stream m E E1 E2). cbn [forallb spawned fst].
    now rewrite andb_true_r. }
  rewrite (run_no_reply p h stream E E1 E2). cbn [forallb spawned fst].
  now rewrite andb_true_r.
Qed.

(** Claim C10, amended: for every argument vector and every behaviour of
    [popen], the value [main] returns is 0, 1 or 2: 1 exactly when the
    argument count is not 2 or [popen] fails, 0 exactly when the captured
    output holds a [time=] or an [Average = ] report (for an output without
    NUL: when the output itself holds one), 2 in the remaining case.  The
    process exits with that value when no stream was opened or the shell
    behind the stream ends, and does not exit when that shell never ends. *)
Theorem exit_code_cases (argv : list string) :
  let host := nth 1 argv EmptyString in
  let code := exit_code os argv in
  (code = 0 \/ code = 1 \/ code = 2)%Z /\
  (code = 1%Z <->
     (List.length argv <> 2 \/ os (command host) = None)) /\
  (code = 0%Z <->
     (List.length argv = 2 /\
      exists stream, os (command host) = Some stream /\
        reports_time (read_all stream))) /\
  (code = 2%Z <->
     (List.length argv = 2 /\
      exists stream, os (command host) = Some stream /\
        ~ reports_time (read_all stream))) /\
  (forall stream,
     List.length argv = 2 -> os (command host) = Some stream ->
     no_nul stream = true ->
     (code = 0%Z <-> reports_time stream) /\
     (code = 2%Z <-> ~ reports_time stream)) /\
  (process_exit os argv = Some code <->
     (List.length argv <> 2 \/ os (command host) = None \/
      ends os (command host) = true)) /\
  (process_exit os argv = None <->
     (List.length argv = 2 /\ os (command host) <> None /\
      ends os (command host) = false)).
Proof.
  cbv zeta.
  destruct (exit_code_split argv) as (H012 & H1 & H0 & H2).
  assert (Hfound : forall stream,
            (regex_search (read_all stream) r_time <> None \/
             regex_search (read_all stream) r_time_win <> None) <->
            reports_time (read_all stream)).
  { intros stream. unfold reports_time.
    now rewrite search_r_time_iff, search_r_time_win_iff. }
  assert (Hnone : forall stream,
            (regex_search (read_all stream) r_time = None /\
             regex_search (read_all stream) r_time_win = None) <->
            ~ reports_time (read_all stream)).
  { intros stream. rewrite <- Hfound. split.
    - intros [-> ->] [H|H]; now apply H.
    - intros H. split.
      + destruct (regex_search (read_all stream) r_time); [|reflexivity].
        exfalso. apply H. left. discriminate.
      + destruct (regex_search (read_all stream) r_time_win); [|reflexivity].
        exfalso. apply H. right. discriminate. }
  assert (H0' : exit_code os argv = 0%Z <->
            List.length argv = 2 /\
            exists stream, os (command (nth 1 argv EmptyString)) = Some stream /\
              reports_time (read_all stream)).
  { rewrite H0. split; intros [L (stream & E & H)]; (split; [exact L|]);
      exists stream; (split; [exact E|]); now apply Hfound. }
  assert (H2' : exit_code os argv = 2%Z <->
            List.length argv = 2 /\
            exists stream, os (command (nth 1 argv EmptyString)) = Some stream /\
              ~ reports_time (read_all stream)).
  { rewrite H2. split; intros [L (stream & E & H)]; (split; [exact L|]);
      exists stream; (split; [exact E|]); now apply Hnone. }
  split; [exact H012|]. split; [exact H1|]. split; [exact H0'|].
  split; [exact H2'|]. split; [|split].
  - intros stream L E Hn.
    pose proof (StdioFacts.read_all_clean stream Hn) as Hc.
    rewrite H0', H2'. split; split.
    + intros [_ (x & Ex & H)]. assert (x = stream) by congruence. subst x.
      now rewrite Hc in H.
    + intros H. split; [exact L|]. exists stream. split; [exact E|].
      now rewrite Hc.
    + intros [_ (x & Ex & H)]. assert (x = stream) by congruence. subst x.
      now rewrite Hc in H.
    + intros H. split; [exact L|]. exists stream. split; [exact E|].
      now rewrite Hc.
  - destruct (Nat.eq_dec (List.length argv) 2) as [L|L].
    + destruct (two_arguments argv L) as (p & h & ->). cbn [nth].
      rewrite process_exit_two. unfold pclose_returns.
      destruct (os (command h)) as [stream|];
        [destruct (ends os (command h))|]; split; intros H; auto;
        try discriminate H.
      destruct H as [H|[H|H]]; [now elim H | discriminate H | discriminate H].
    + rewrite (process_exit_usage argv L). split; auto.
  - destruct (Nat.eq_dec (List.length argv) 2) as [L|L].
    + destruct (two_arguments argv L) as (p & h & ->). cbn [nth].
      rewrite process_exit_two. unfold pclose_returns.
      destruct (os (command h)) as [stream|];
        [destruct (ends os (command h))|]; split; intros H;
        try discriminate H.
      * destruct H as (_ & _ & H). discriminate H.
      * split; [reflexivity|]. split; [discriminate | reflexivity].
      * reflexivity.
      * destruct H as (_ & H & _). now elim H.
    + rewrite (process_exit_usage argv L). split; [discriminate|].
      intros [H _]. now elim L.
Qed.

(** Claim C8: with the single argument [h], the command handed to the
    shell is exactly "ping -c 1 " followed by [h] followed by " 2>&1", for
    every text [h] whatever it holds, and it is the only command spawned. *)
Theorem spawned_command (p h : string) :
  commands os [p; h] = ["ping -c 1 " ++ h ++ " 2>&1"].
Proof.
  unfold commands. fold (command h).
  destruct (os (command h)) as [stream|] eqn:E.
  2:{ now rewrite run_popen_failed. }
  destruct (regex_search (read_all stream) r_time) as [m|] eqn:E1.
  { now rewrite (run_time p h stream m). }
  destruct (regex_search (read_all stream) r_time_win) as [m|] eqn:E2.
  { now rewrite (run_average p h stream m). }
  now rewrite (run_no_reply p h stream).
Qed.

(** Claim C9: the [time=] pattern goes first.  When the captured output
    holds a [time=] report, the program prints the number of the first such
    report and returns 0, whatever [Average = ] reports the output holds; an
    [Average = ] report decides only when the output holds no [time=]
    report, and then the number of the first one is printed with " (avg)"
    after it.  The captured output is the output of the command itself when
    that holds no NUL. *)
Theorem time_pattern_first (p h stream : string) :
  os (command h) = Some stream ->
  ((exists n, time_report (read_all stream) n) ->
   exists n,
     first_time_report (read_all stream) n /\
     exit_code os [p; h] = 0%Z /\
     stdout os [p; h] =
       "Reply from " ++ h ++ ": time=" ++ n ++ " ms" ++ Str.nl) /\
  ((forall n, ~ time_report (read_all stream) n) ->
   (exists n, average_report (read_all stream) n) ->
   exists n,
     first_average_report (read_all stream) n /\
     exit_code os [p; h] = 0%Z /\
     stdout os [p; h] =
       "Reply from " ++ h ++ ": time=" ++ n ++ " ms (avg)" ++ Str.nl) /\
  (no_nul stream = true -> read_all stream = stream).
Proof.
  intros E. unfold exit_code, stdout. split; [|split].
  3:{ exact (StdioFacts.read_all_clean stream). }
  - intros Ht. apply search_r_time_iff in Ht.
    destruct (regex_search (read_all stream) r_time) as [m|] eqn:E1;
      [|now elim Ht].
    destruct (search_r_time_first _ _ E1) as (n & Hg & Hfirst).
    exists n. rewrite (run_time p h stream m E E1), Hg. auto.
  - intros Hno Ha.
    assert (E1 : regex_search (read_all stream) r_time = None).
    { destruct (regex_search (read_all stream) r_time) eqn:E1; [|reflexivity].
      assert (Ht : exists n, time_report (read_all stream) n).
      { apply search_r_time_iff. congruence. }
      destruct Ht as (n & Ht). now elim (Hno n). }
    apply search_r_time_win_iff in Ha.
    destruct (regex_search (read_all stream) r_time_win) as [m|] eqn:E2;
      [|now elim Ha].
    destruct (search_r_time_win_first _ _ E2) as (n & Hg & Hfirst).
    exists n. rewrite (run_average p h stream m E E1 E2), Hg. auto.
Qed.

(** Claim C7, amended: when [main] returns 0 it was given one argument
    [h] and has printed one line, "Reply from h: time=n ms" when [n] is the
    numeral the [time=] pattern captured in the output of ping, and
    "Reply from h: time=n ms (avg)" when no [time=] report is there and [n]
    is what the [Average] pattern captured. *)
Theorem reply_line (argv : list string) :
  exit_code os argv = 0%Z ->
  exists p h stream m n,
    argv = [p; h] /\ os (command h) = Some stream /\ group1 m = Some n /\
    ((regex_search (read_all stream) r_time = Some m /\
      time_report (read_all stream) n /\
      stdout os argv = "Reply from " ++ h ++ ": time=" ++ n ++ " ms" ++ Str.nl)
     \/
     (regex_search (read_all stream) r_time = None /\
      regex_search (read_all stream) r_time_win = Some m /\
      average_report (read_all stream) n /\
      stdout os argv =
        "Reply from " ++ h ++ ": time=" ++ n ++ " ms (avg)" ++ Str.nl)).
Proof.
  intros H0. destruct (exit_code_split argv) as (_ & _ & H & _).
  apply H in H0. clear H. destruct H0 as [L (stream & E & Hfound)].
  destruct (two_arguments argv L) as (p & h & ->). cbn [nth] in E.
  unfold stdout.
  destruct (regex_search (read_all stream) r_time) as [m|] eqn:E1.
  - destruct (search_r_time_some _ _ E1) as (n & ws & Hg & Hn & Hws & Hs).
    exists p, h, stream, m, n. repeat split; auto. left.
    rewrite (run_time p h stream m E E1), Hg. repeat split; auto.
    exists (prefix m), ws, (suffix m). auto.
  - destruct (regex_search (read_all stream) r_time_win) as [m|] eqn:E2;
      [|destruct Hfound; congruence].
    destruct (search_r_time_win_some _ _ E2) as (n & Hg & Hn & Hs).
    exists p, h, stream, m, n. repeat split; auto. right.
    rewrite (run_average p h stream m E E1 E2), Hg. repeat split; auto.
    exists (prefix m), (suffix m). auto.
Qed.

(** Claim C1, amended: [main] returns 1 when the argument count is wrong
    and when [popen] cannot start the command, 0 when the output of ping
    reports a time, and 2 when it reports none, whatever the reason (no
    reply, or a host name that does not resolve); 1 and 2 are different
    codes. *)
Theorem exit_code_meaning (argv : list string) :
  (List.length argv <> 2 -> exit_code os argv = 1%Z) /\
  (forall p h, argv = [p; h] -> os (command h) = None ->
     exit_code os argv = 1%Z) /\
  (forall p h stream, argv = [p; h] -> os (command h) = Some stream ->
     reports_time (read_all stream) -> exit_code os argv = 0%Z) /\
  (forall p h stream, argv = [p; h] -> os (command h) = Some stream ->
     ~ reports_time (read_all stream) -> exit_code os argv = 2%Z) /\
  (1 <> 2)%Z.
Proof.
  destruct (exit_code_split argv) as (_ & H1 & H0 & H2).
  repeat split.
  - intros L. apply H1. now left.
  - intros p h -> E. apply H1. now right.
  - intros p h stream -> E Hr. apply H0. split; [reflexivity|].
    exists stream. split; [exact E|].
    destruct Hr as [Hr|Hr]; [left | right].
    + now apply search_r_time_iff.
    + now apply search_r_time_win_iff.
  - intros p h stream -> E Hr. apply H2. split; [reflexivity|].
    exists stream. split; [exact E|]. split.
    + destruct (regex_search (read_all stream) r_time) eqn:E1; [|reflexivity].
      exfalso. apply Hr. left. apply search_r_time_iff. congruence.
    + destruct (regex_search (read_all stream) r_time_win) eqn:E2; [|reflexivity].
      exfalso. apply Hr. right. apply search_r_time_win_iff. congruence.
  - discriminate.
Qed.

End Runs.

(** *** Runs on the sample texts *)

Import Samples.

Lemma exit_code_meaning_witness :
  exit_code (quiet (fun _ => None)) ["pingadd"] = 1%Z /\
  exit_code (quiet (fun _ => None)) ["pingadd"; "example.org"] = 1%Z /\
  exit_code (quiet (fun _ => Some linux_reply)) ["pingadd"; "example.org"] = 0%Z /\
  exit_code (quiet (fun _ => Some linux_no_reply)) ["pingadd"; "10.255.255.1"] = 2%Z.
Proof.
  split; [|split; [|split]].
  - apply (proj1 (exit_code_meaning (quiet (fun _ => None)) ["pingadd"])).
    simpl. lia.
  - apply (proj1 (proj2 (exit_code_meaning (quiet (fun _ => None))
                           ["pingadd"; "example.org"]))
             "pingadd" "example.org"); reflexivity.
  - apply (proj1 (proj2 (proj2 (exit_code_meaning (quiet (fun _ => Some linux_reply))
                                  ["pingadd"; "example.org"])))
             "pingadd" "example.org" linux_reply); try reflexivity.
    left. exists "12.3".
    exists ("PING example.org (93.184.216.34) 56(84) bytes of data." ++ Str.nl ++
            "64 bytes from 93.184.216.34: icmp_seq=1 ttl=57 ").
    exists " ".
    exists (Str.nl ++ Str.nl ++
            "--- example.org ping statistics ---" ++ Str.nl ++
            "1 packets transmitted, 1 received, 0% packet loss, time 0ms" ++ Str.nl ++
            "rtt min/avg/max/mdev = 12.300/12.300/12.300/0.000 ms" ++ Str.nl).
    split; [reflexivity | split; reflexivity].
  - apply (proj1 (proj2 (proj2 (proj2
             (exit_code_meaning (quiet (fun _ => Some linux_no_reply))
                ["pingadd"; "10.255.255.1"]))))
             "pingadd" "10.255.255.1" linux_no_reply); try reflexivity.
    intros [H|H].
    + apply search_r_time_iff in H. apply H. reflexivity.
    + apply search_r_time_win_iff in H. apply H. reflexivity.
Defined.

(** Claim C1 as stated fails: for a host name that does not resolve, ping
    prints an error and no time, and [main] returns 2, the code of "no
    reply", not 1. *)
Lemma unresolved_host_exit_code :
  exit_code (quiet (fun _ => Some unknown_host)) ["pingadd"; "nosuchhost.invalid"] = 2%Z /\
  exit_code (quiet (fun _ => Some unknown_host)) ["pingadd"; "nosuchhost.invalid"] <> 1%Z.
Proof. split; [reflexivity | discriminate]. Qed.

Lemma time_pattern_first_witness :
  (exists n,
     first_time_report (read_all both_reports) n /\
     exit_code (quiet (fun _ => Some both_reports)) ["pingadd"; "10.0.0.7"] = 0%Z /\
     stdout (quiet (fun _ => Some both_reports)) ["pingadd"; "10.0.0.7"] =
       "Reply from " ++ "10.0.0.7" ++ ": time=" ++ n ++ " ms" ++ Str.nl) /\
  (exists n,
     first_average_report (read_all windows_fast_reply) n /\
     exit_code (quiet (fun _ => Some windows_fast_reply)) ["pingadd"; "127.0.0.1"] = 0%Z /\
     stdout (quiet (fun _ => Some windows_fast_reply)) ["pingadd"; "127.0.0.1"] =
       "Reply from " ++ "127.0.0.1" ++ ": time=" ++ n ++ " ms (avg)" ++ Str.nl) /\
  read_all both_reports = both_reports.
Proof.
  split; [|split].
  3:{ apply (proj2 (proj2 (time_pattern_first (quiet (fun _ => Some both_reports))
                             "pingadd" "10.0.0.7" both_reports eq_refl))).
      reflexivity. }
  - apply (proj1 (time_pattern_first (quiet (fun _ => Some both_reports))
                    "pingadd" "10.0.0.7" both_reports eq_refl)).
    exists "5". exists "Reply from 10.0.0.7: bytes=32 ". exists EmptyString.
    exists (" TTL=64" ++ Str.nl ++
            "    Minimum = 5ms, Maximum = 5ms, Average = 7ms" ++ Str.nl).
    split; [reflexivity | split; reflexivity].
  - apply (proj1 (proj2 (time_pattern_first
                           (quiet (fun _ => Some windows_fast_reply))
                           "pingadd" "127.0.0.1" windows_fast_reply eq_refl))).
    + intros n H.
      assert (Hs : regex_search (read_all windows_fast_reply) r_time <> None).
      { apply search_r_time_iff. now exists n. }
      apply Hs. reflexivity.
    + exists "0".
      exists ("Pinging 127.0.0.1 with 32 bytes of data:" ++ Str.nl ++
              "Reply from 127.0.0.1: bytes=32 time<1ms TTL=128" ++ Str.nl ++
              Str.nl ++
              "Ping statistics for 127.0.0.1:" ++ Str.nl ++
              "    Packets: Sent = 1, Received = 1, Lost = 0 (0% loss)," ++ Str.nl ++
              "Approximate round trip times in milli-seconds:" ++ Str.nl ++
              "    Minimum = 0ms, Maximum = 0ms, ").
      exists Str.nl.
      split; reflexivity.
Defined.

(** What the first of these runs prints: the number of the [time=] report,
    not the 7 of the [Average = ] report in the same text. *)
Lemma both_reports_run :
  exit_code (quiet (fun _ => Some both_reports)) ["pingadd"; "10.0.0.7"] = 0%Z /\
  stdout (quiet (fun _ => Some both_reports)) ["pingadd"; "10.0.0.7"] =
    "Reply from 10.0.0.7: time=5 ms" ++ Str.nl.
Proof. split; reflexivity. Qed.

Lemma exit_code_cases_witness :
  exit_code (quiet (fun _ => Some linux_reply)) ["pingadd"; "example.org"] = 0%Z /\
  process_exit (quiet (fun _ => Some linux_reply)) ["pingadd"; "example.org"]
    = Some 0%Z /\
  exit_code (quiet (fun _ => Some unknown_host)) ["pingadd"; "nosuchhost.invalid"]
    = 2%Z /\
  exit_code (quiet (fun _ => None)) ["pingadd"; "example.org"] = 1%Z /\
  process_exit endless_sleep
    ["pingadd"; "localhost >/dev/null; exec >/dev/null; sleep infinity"] = None.
Proof.
  split; [|split; [|split; [|split]]].
  - destruct (exit_code_cases (quiet (fun _ => Some linux_reply))
                ["pingadd"; "example.org"]) as (_ & _ & _ & _ & Hraw & _).
    apply (Hraw linux_reply eq_refl eq_refl eq_refl).
    left. exists "12.3".
    exists ("PING example.org (93.184.216.34) 56(84) bytes of data." ++ Str.nl ++
            "64 bytes from 93.184.216.34: icmp_seq=1 ttl=57 ").
    exists " ".
    exists (Str.nl ++ Str.nl ++
            "--- example.org ping statistics ---" ++ Str.nl ++
            "1 packets transmitted, 1 received, 0% packet loss, time 0ms" ++ Str.nl ++
            "rtt min/avg/max/mdev = 12.300/12.300/12.300/0.000 ms" ++ Str.nl).
    split; [reflexivity | split; reflexivity].
  - destruct (exit_code_cases (quiet (fun _ => Some linux_reply))
                ["pingadd"; "example.org"]) as (_ & _ & _ & _ & _ & Hexit & _).
    apply Hexit. right. right. reflexivity.
  - destruct (exit_code_cases (quiet (fun _ => Some unknown_host))
                ["pingadd"; "nosuchhost.invalid"]) as (_ & _ & _ & H2 & _).
    apply H2. split; [reflexivity|]. exists unknown_host. split; [reflexivity|].
    intros [H|H].
    + apply search_r_time_iff in H. apply H. reflexivity.
    + apply search_r_time_win_iff in H. apply H. reflexivity.
  - destruct (exit_code_cases (quiet (fun _ => None))
                ["pingadd"; "example.org"]) as (_ & H1 & _).
    apply H1. right. reflexivity.
  - destruct (exit_code_cases endless_sleep
                ["pingadd"; "localhost >/dev/null; exec >/dev/null; sleep infinity"])
      as (_ & _ & _ & _ & _ & _ & Hhang).
    apply Hhang. split; [reflexivity|]. split; [discriminate | reflexivity].
Defined.

(** Claim C10 as stated fails: the captured output is a finite text (the
    empty one), [main] returns 2, and yet the process never exits, with
    this or any code: the deleter of [pipe] waits in [pclose] for a shell
    that does not end. *)
Lemma process_never_exits :
  let argv := ["pingadd"; "localhost >/dev/null; exec >/dev/null; sleep infinity"] in
  endless_sleep (command (nth 1 argv EmptyString)) = Some EmptyString /\
  exit_code endless_sleep argv = 2%Z /\
  process_exit endless_sleep argv = None /\
  ~ (exists code, process_exit endless_sleep argv = Some code /\
                  (code = 0 \/ code = 1 \/ code = 2)%Z).
Proof.
  cbv zeta. repeat split.
  intros (code & H & _). discriminate H.
Qed.

Lemma reply_line_witness :
  exists p h stream m n,
    ["pingadd"; "example.org"] = [p; h] /\
    quiet (fun _ => Some linux_reply) (command h) = Some stream /\
    group1 m = Some n /\
    ((regex_search (read_all stream) r_time = Some m /\
      time_report (read_all stream) n /\
      stdout (quiet (fun _ => Some linux_reply)) ["pingadd"; "example.org"] =
        "Reply from " ++ h ++ ": time=" ++ n ++ " ms" ++ Str.nl)
     \/
     (regex_search (read_all stream) r_time = None /\
      regex_search (read_all stream) r_time_win = Some m /\
      average_report (read_all stream) n /\
      stdout (quiet (fun _ => Some linux_reply)) ["pingadd"; "example.org"] =
        "Reply from " ++ h ++ ": time=" ++ n ++ " ms (avg)" ++ Str.nl)).
Proof.
  apply (reply_line (quiet (fun _ => Some linux_reply)) ["pingadd"; "example.org"]).
  reflexivity.
Defined.

(** Claim C7 as stated fails: when only the [Average] pattern is found, the
    line printed with exit code 0 ends in " ms (avg)", so it is not
    "Reply from <host>: time=<n> ms" for any [n]. *)
Lemma average_reply_line :
  exit_code (quiet (fun _ => Some windows_fast_reply)) ["pingadd"; "127.0.0.1"] = 0%Z /\
  stdout (quiet (fun _ => Some windows_fast_reply)) ["pingadd"; "127.0.0.1"] =
    "Reply from 127.0.0.1: time=0 ms (avg)" ++ Str.nl /\
  ~ exists n,
      stdout (quiet (fun _ => Some windows_fast_reply)) ["pingadd"; "127.0.0.1"] =
        "Reply from " ++ "127.0.0.1" ++ ": time=" ++ n ++ " ms" ++ Str.nl.
Proof.
  split; [reflexivity|]. split; [reflexivity|].
  intros [n H].
  change (stdout (quiet (fun _ => Some windows_fast_reply)) ["pingadd"; "127.0.0.1"])
    with ("Reply from 127.0.0.1: time=" ++ "0 ms (avg)" ++ Str.nl) in H.
  change ("Reply from " ++ "127.0.0.1" ++ ": time=" ++ n ++ " ms" ++ Str.nl)
    with ("Reply from 127.0.0.1: time=" ++ n ++ " ms" ++ Str.nl) in H.
  apply append_inv_head in H.
  do 11 (destruct n as [|? n]; [discriminate H | injection H as _ H]).
  destruct n; discriminate H.
Qed.

(** *** Every way through [main] *)

Section Paths.

Variable os : system.

Lemma run_cases (argv : list string) :
  (List.length argv <> 2) \/
  (exists p h, argv = [p; h] /\ os (command h) = None) \/
  (exists p h stream m, argv = [p; h] /\ os (command h) = Some stream /\
     regex_search (read_all stream) r_time = Some m) \/
  (exists p h stream m, argv = [p; h] /\ os (command h) = Some stream /\
     regex_search (read_all stream) r_time = None /\
     regex_search (read_all stream) r_time_win = Some m) \/
  (exists p h stream, argv = [p; h] /\ os (command h) = Some stream /\
     regex_search (read_all stream) r_time = None /\
     regex_search (read_all stream) r_time_win = None).
Proof.
  destruct (Nat.eq_dec (List.length argv) 2) as [L|L]; [|now left].
  right. destruct (two_arguments argv L) as (p & h & ->).
  destruct (os (command h)) as [stream|] eqn:E; [|left; eauto].
  right. destruct (regex_search (read_all stream) r_time) as [m|] eqn:E1;
    [left; eauto 7|].
  right. destruct (regex_search (read_all stream) r_time_win) as [m|] eqn:E2;
    [left; eauto 8 | right; eauto 8].
Qed.

(** Rewrites a run of [main] by the lemma of its path. *)
Ltac on_path :=
  match goal with
  | L : List.length _ <> 2 |- _ => rewrite !(run_usage os _ L)
  | E : piped os (command ?h) = None |- _ => rewrite !(run_popen_failed os _ h E)
  | E : piped os (command ?h) = Some ?st,
    E1 : regex_search (read_all ?st) r_time = Some ?m |- _ =>
      rewrite !(run_time os _ h st m E E1)
  | E : piped os (command ?h) = Some ?st,
    E1 : regex_search (read_all ?st) r_time = None,
    E2 : regex_search (read_all ?st) r_time_win = Some ?m |- _ =>
      rewrite !(run_average os _ h st m E E1 E2)
  | E : piped os (command ?h) = Some ?st,
    E1 : regex_search (read_all ?st) r_time = None,
    E2 : regex_search (read_all ?st) r_time_win = None |- _ =>
      rewrite !(run_no_reply os _ h st E E1 E2)
  end.

Ltac by_path argv :=
  destruct (run_cases argv)
    as [L | [(p0 & h0 & -> & E) | [(p0 & h0 & st & m0 & -> & E & E1)
       | [(p0 & h0 & st & m0 & -> & E & E1 & E2)
       | (p0 & h0 & st & -> & E & E1 & E2)]]]];
  unfold exit_code, stdout, stderr, commands; on_path;
  cbn [fst snd cout cerr spawned].

(** X4: the program starts one command when it has exactly one argument,
    the ping of that argument, and no command otherwise; it never starts a
    second one. *)
Theorem commands_spawned (argv : list string) :
  commands os argv =
  if (List.length argv =? 2)%nat
  then [command (nth 1 argv EmptyString)] else [].
Proof.
  by_path argv; try reflexivity.
  apply Nat.eqb_neq in L. now rewrite L.
Qed.

(** X5: standard output is empty exactly when the exit code is 1.  On exit
    code 1 standard error is not empty: it holds the message of the
    program.  On any other exit code the program itself writes nothing to
    standard error: the stream holds exactly what the shell and its children
    wrote to the descriptor they inherit. *)
Theorem output_streams (argv : list string) :
  (exit_code os argv = 1%Z <-> stdout os argv = EmptyString) /\
  (exit_code os argv = 1%Z -> stderr os argv <> EmptyString) /\
  (exit_code os argv <> 1%Z ->
   stderr os argv = leaked os (command (nth 1 argv EmptyString))).
Proof.
  by_path argv; cbn [nth];
    (split; [split; intros H; try reflexivity; discriminate H|]);
    (split; [intros H; try discriminate H; discriminate
            | intros H; try reflexivity; exfalso; apply H; reflexivity]).
Qed.

(** X6: on exit code 1 standard error holds one of two lines, and which
    one tells the cause: the usage line, naming the program as it was
    invoked, when the argument count is wrong (then nothing was spawned),
    and "Failed to run ping command" when [popen] gave no stream. *)
Theorem failure_message (p : string) (rest : list string) :
  exit_code os (p :: rest) = 1%Z ->
  (List.length rest <> 1 /\ commands os (p :: rest) = [] /\
   stderr os (p :: rest) = "Usage: " ++ p ++ " <host-or-ip>" ++ Str.nl) \/
  (exists h, rest = [h] /\ os (command h) = None /\
   stderr os (p :: rest) = "Failed to run ping command" ++ Str.nl).
Proof.
  remember (p :: rest) as argv eqn:Ea. revert Ea.
  by_path argv; intros Ea H; try discriminate H.
  - left. subst argv. simpl in L. split; [lia|]. split; reflexivity.
  - right. injection Ea as <- <-. exists h0. auto.
Qed.

(** X7: on exit code 2 the program was given one argument, found no time
    report in the text it captured, and has printed that text back after
    one fixed line; standard error holds nothing from the program, only what
    the shell and its children wrote to the descriptor they inherit. *)
Theorem no_reply_echo (argv : list string) :
  exit_code os argv = 2%Z ->
  exists p h stream,
    argv = [p; h] /\ os (command h) = Some stream /\
    ~ reports_time (read_all stream) /\
    stdout os argv =
      ("No reply / unable to parse time. Raw output:" ++ Str.nl)
        ++ read_all stream ++ Str.nl /\
    stderr os argv = leaked os (command h).
Proof.
  by_path argv; intros H; try discriminate H.
  exists p0, h0, st. repeat split; auto.
  intros [Hr|Hr].
  - apply search_r_time_iff in Hr. congruence.
  - apply search_r_time_win_iff in Hr. congruence.
Qed.

End Paths.

(** *** Which report is printed *)

Lemma num_char_follower (a : ascii) :
  num_char a = true -> isspace a = false /\ a <> "m"%char.
Proof.
  destruct a as [[] [] [] [] [] [] [] []]; intros H;
    try discriminate H; split; try reflexivity; discriminate.
Qed.

Lemma num_chars_app (a b : string) :
  num_chars (a ++ b) = num_chars a && num_chars b.
Proof.
  induction a as [|x a IH]; simpl; [reflexivity|].
  now rewrite IH, andb_assoc.
Qed.

Lemma all_digits_num_chars (w : string) :
  all_digits w = true -> num_chars w = true.
Proof.
  induction w as [|a w IH]; simpl; [reflexivity|].
  intros H. apply andb_prop in H. destruct H as [Ha Hw].
  unfold num_char. now rewrite Ha, IH.
Qed.

Lemma digits1_all_digits (w : string) :
  digits1 w = true -> all_digits w = true.
Proof. destruct w; [discriminate | auto]. Qed.

Lemma numeral_num_chars (n : string) :
  numeral n = true -> num_chars n = true.
Proof.
  intros H. unfold numeral in H. destruct n as [|a n]; [discriminate|].
  apply andb_prop in H. destruct H as [_ H].
  destruct (split_digits (String a n)) as (i & E & Hi).
  rewrite E, num_chars_app, (all_digits_num_chars i Hi).
  destruct (drop_digits (String a n)) as [|b d]; [reflexivity|].
  apply andb_prop in H. destruct H as [Hb Hd].
  simpl. unfold num_char. rewrite Hb, orb_true_r.
  now rewrite (all_digits_num_chars d Hd).
Qed.

Lemma unit_follows (ws v : string) :
  space01 ws = true -> follows_number (ws ++ "ms" ++ v).
Proof.
  destruct ws as [|a [|b ws]]; intros H; try discriminate; simpl.
  - reflexivity.
  - destruct (num_char a) eqn:E; [|reflexivity].
    apply num_char_follower in E. destruct E as [E _]. simpl in H. congruence.
Qed.

(** The number that starts at a given place is determined by the text. *)
Lemma number_unique (n1 n2 t1 t2 : string) :
  num_chars n1 = true -> num_chars n2 = true ->
  follows_number t1 -> follows_number t2 ->
  n1 ++ t1 = n2 ++ t2 -> n1 = n2.
Proof.
  intros H1 H2 F1 F2 E.
  destruct (StdioFacts.append_split _ _ _ _ E) as [(x & -> & ->) | (x & -> & ->)].
  - destruct x as [|a x]; [now rewrite append_nil_r|]. exfalso.
    rewrite num_chars_app in H1. apply andb_prop in H1. destruct H1 as [_ H1].
    cbn [num_chars append follows_number] in H1, F2. apply andb_prop in H1. destruct H1 as [H1 _]. congruence.
  - destruct x as [|a x]; [now rewrite append_nil_r|]. exfalso.
    rewrite num_chars_app in H2. apply andb_prop in H2. destruct H2 as [_ H2].
    cbn [num_chars append follows_number] in H2, F1. apply andb_prop in H2. destruct H2 as [H2 _]. congruence.
Qed.

Section Leftmost.

Variable os : system.

(** X8: the printed time is that of the leftmost [time=] report.  When the
    search for the first pattern succeeds with the match [m], no time report
    of the captured text begins before [m], and a report that begins where
    [m] does carries the number the program prints. *)
Theorem leftmost_time_report (p h stream u n ws v : string) (m : smatch) :
  os (command h) = Some stream ->
  regex_search (read_all stream) r_time = Some m ->
  read_all stream = u ++ "time=" ++ n ++ ws ++ "ms" ++ v ->
  numeral n = true -> space01 ws = true ->
  length (prefix m) <= length u /\
  (length (prefix m) = length u ->
   stdout os [p; h] = "Reply from " ++ h ++ ": time=" ++ n ++ " ms" ++ Str.nl).
Proof.
  intros E E1 Er Hn Hws.
  assert (Hm : matches r_time ("time=" ++ n ++ ws ++ "ms") None (Some n)).
  { apply matches_r_time. exists n, ws. auto. }
  assert (Er' : read_all stream = u ++ ("time=" ++ n ++ ws ++ "ms") ++ v).
  { rewrite Er. cbn [append]. now rewrite !append_assoc. }
  split.
  - apply (search_from_leftmost r_time _ EmptyString m E1 u _ v _ Er' Hm).
  - intros L. unfold stdout. rewrite (run_time os p h stream m E E1).
    cbn [snd cout].
    destruct (search_r_time_some _ _ E1) as (n' & ws' & Hg & Hn' & Hws' & Es).
    rewrite Hg. cbn [str].
    rewrite Er in Es.
    destruct (append_length_inv _ _ _ _ Es (eq_sym L)) as [_ Et].
    apply (append_inv_head "time=") in Et.
    assert (n = n'); [|now subst].
    apply (number_unique n n' (ws ++ "ms" ++ v) (ws' ++ "ms" ++ suffix m));
      auto using numeral_num_chars, unit_follows.
Qed.

(** X9: the same for the second pattern: when the first finds nothing and
    the second succeeds with [m], no [Average = ] report of the captured text
    begins before [m], and one that begins where [m] does carries the number
    printed before " ms (avg)". *)
Theorem leftmost_average_report (p h stream u n v : string) (m : smatch) :
  os (command h) = Some stream ->
  regex_search (read_all stream) r_time = None ->
  regex_search (read_all stream) r_time_win = Some m ->
  read_all stream = u ++ "Average = " ++ n ++ "ms" ++ v ->
  digits1 n = true ->
  length (prefix m) <= length u /\
  (length (prefix m) = length u ->
   stdout os [p; h] =
     "Reply from " ++ h ++ ": time=" ++ n ++ " ms (avg)" ++ Str.nl).
Proof.
  intros E E1 E2 Er Hn.
  assert (Hm : matches r_time_win ("Average = " ++ n ++ "ms") None (Some n)).
  { apply matches_r_time_win. exists n. auto. }
  assert (Er' : read_all stream = u ++ ("Average = " ++ n ++ "ms") ++ v).
  { rewrite Er. cbn [append]. now rewrite !append_assoc. }
  split.
  - apply (search_from_leftmost r_time_win _ EmptyString m E2 u _ v _ Er' Hm).
  - intros L. unfold stdout. rewrite (run_average os p h stream m E E1 E2).
    cbn [snd cout].
    destruct (search_r_time_win_some _ _ E2) as (n' & Hg & Hn' & Es).
    rewrite Hg. cbn [str].
    rewrite Er in Es.
    destruct (append_length_inv _ _ _ _ Es (eq_sym L)) as [_ Et].
    apply (append_inv_head "Average = ") in Et.
    assert (n = n'); [|now subst].
    apply (number_unique n n' ("ms" ++ v) ("ms" ++ suffix m));
      auto using all_digits_num_chars, digits1_all_digits; reflexivity.
Qed.

End Leftmost.

Lemma output_streams_witness :
  stderr unterminated_quote ["pingadd"; "a'b"] =
    leaked unterminated_quote (command (nth 1 ["pingadd"; "a'b"] EmptyString)) /\
  stderr (quiet (fun _ => None)) ["pingadd"] <> EmptyString.
Proof.
  split.
  - apply (proj2 (proj2 (output_streams unterminated_quote ["pingadd"; "a'b"]))).
    vm_compute. discriminate.
  - apply (proj1 (proj2 (output_streams (quiet (fun _ => None)) ["pingadd"]))).
    reflexivity.
Defined.

(** A host with an unterminated quote: the run ends with code 2 and the
    complaint of the shell is on standard error. *)
Lemma shell_complaint_run :
  exit_code unterminated_quote ["pingadd"; "a'b"] = 2%Z /\
  stdout unterminated_quote ["pingadd"; "a'b"] =
    "No reply / unable to parse time. Raw output:" ++ Str.nl ++ Str.nl /\
  stderr unterminated_quote ["pingadd"; "a'b"] =
    "sh: 1: Syntax error: Unterminated quoted string" ++ Str.nl.
Proof. repeat split. Qed.

Lemma failure_message_witness :
  ((List.length (@nil string) <> 1 /\
    commands (quiet (fun _ => None)) ["pingadd"] = [] /\
    stderr (quiet (fun _ => None)) ["pingadd"] =
      "Usage: " ++ "pingadd" ++ " <host-or-ip>" ++ Str.nl) \/
   (exists h, [] = [h] /\ quiet (fun _ => None) (command h) = None /\
    stderr (quiet (fun _ => None)) ["pingadd"] = "Failed to run ping command" ++ Str.nl))
  /\
  ((List.length ["example.org"] <> 1 /\
    commands (quiet (fun _ => None)) ["pingadd"; "example.org"] = [] /\
    stderr (quiet (fun _ => None)) ["pingadd"; "example.org"] =
      "Usage: " ++ "pingadd" ++ " <host-or-ip>" ++ Str.nl) \/
   (exists h, ["example.org"] = [h] /\
    quiet (fun _ => None) (command h) = None /\
    stderr (quiet (fun _ => None)) ["pingadd"; "example.org"] =
      "Failed to run ping command" ++ Str.nl)).
Proof.
  split.
  - apply (failure_message (quiet (fun _ => None)) "pingadd" []). reflexivity.
  - apply (failure_message (quiet (fun _ => None)) "pingadd" ["example.org"]). reflexivity.
Defined.

Lemma no_reply_echo_witness :
  exists p h stream,
    ["pingadd"; "10.255.255.1"] = [p; h] /\
    quiet (fun _ => Some linux_no_reply) (command h) = Some stream /\
    ~ reports_time (read_all stream) /\
    stdout (quiet (fun _ => Some linux_no_reply)) ["pingadd"; "10.255.255.1"] =
      ("No reply / unable to parse time. Raw output:" ++ Str.nl)
        ++ read_all stream ++ Str.nl /\
    stderr (quiet (fun _ => Some linux_no_reply)) ["pingadd"; "10.255.255.1"] =
      leaked (quiet (fun _ => Some linux_no_reply)) (command h).
Proof.
  apply (no_reply_echo (quiet (fun _ => Some linux_no_reply)) ["pingadd"; "10.255.255.1"]).
  reflexivity.
Defined.

(** Two replies in one text: the first is the one printed. *)
Lemma leftmost_time_report_witness :
  let m := {| prefix := "64 bytes from 10.0.0.7: icmp_seq=1 ttl=64 ";
              whole := "time=1.5 ms";
              group1 := Some "1.5";
              suffix := Str.nl ++ "64 bytes from 10.0.0.7: icmp_seq=2 ttl=64 time=2 ms"
                          ++ Str.nl |} in
  length (prefix m) <= length "64 bytes from 10.0.0.7: icmp_seq=1 ttl=64 " /\
  (length (prefix m) = length "64 bytes from 10.0.0.7: icmp_seq=1 ttl=64 " ->
   stdout (quiet (fun _ =>
                    Some ("64 bytes from 10.0.0.7: icmp_seq=1 ttl=64 time=1.5 ms"
                            ++ Str.nl
                            ++ "64 bytes from 10.0.0.7: icmp_seq=2 ttl=64 time=2 ms"
                            ++ Str.nl)))
     ["pingadd"; "10.0.0.7"] =
     "Reply from " ++ "10.0.0.7" ++ ": time=" ++ "1.5" ++ " ms" ++ Str.nl).
Proof.
  apply (leftmost_time_report
           (quiet (fun _ =>
                     Some ("64 bytes from 10.0.0.7: icmp_seq=1 ttl=64 time=1.5 ms"
                             ++ Str.nl
                             ++ "64 bytes from 10.0.0.7: icmp_seq=2 ttl=64 time=2 ms"
                             ++ Str.nl)))
           "pingadd" "10.0.0.7"
           ("64 bytes from 10.0.0.7: icmp_seq=1 ttl=64 time=1.5 ms"
              ++ Str.nl
              ++ "64 bytes from 10.0.0.7: icmp_seq=2 ttl=64 time=2 ms"
              ++ Str.nl)
           "64 bytes from 10.0.0.7: icmp_seq=1 ttl=64 " "1.5" " "
           (Str.nl ++ "64 bytes from 10.0.0.7: icmp_seq=2 ttl=64 time=2 ms"
              ++ Str.nl));
    reflexivity.
Defined.

Lemma leftmost_average_report_witness :
  let u := "Pinging 127.0.0.1 with 32 bytes of data:" ++ Str.nl ++
           "Reply from 127.0.0.1: bytes=32 time<1ms TTL=128" ++ Str.nl ++
           Str.nl ++
           "Ping statistics for 127.0.0.1:" ++ Str.nl ++
           "    Packets: Sent = 1, Received = 1, Lost = 0 (0% loss)," ++ Str.nl ++
           "Approximate round trip times in milli-seconds:" ++ Str.nl ++
           "    Minimum = 0ms, Maximum = 0ms, " in
  let m := {| prefix := u; whole := "Average = 0ms"; group1 := Some "0";
              suffix := Str.nl |} in
  length (prefix m) <= length u /\
  (length (prefix m) = length u ->
   stdout (quiet (fun _ => Some windows_fast_reply)) ["pingadd"; "127.0.0.1"] =
     "Reply from " ++ "127.0.0.1" ++ ": time=" ++ "0" ++ " ms (avg)" ++ Str.nl).
Proof.
  cbv zeta.
  apply (leftmost_average_report (quiet (fun _ => Some windows_fast_reply))
           "pingadd" "127.0.0.1" windows_fast_reply _ "0" Str.nl);
    reflexivity.
Defined.

(** An argument with shell syntax in it reaches the shell as it is. *)
Lemma spawned_command_example :
  commands (quiet (fun _ => Some linux_no_reply)) ["pingadd"; "10.255.255.1; id"] =
  ["ping -c 1 10.255.255.1; id 2>&1"].
Proof. reflexivity. Qed.

End PingFacts.
